(** * Buffer-pool status and invalidation channels

    A shallow embedding of [media/bufferpool/aidl/default/BufferStatus.cpp]:
    the wrap-around comparisons on message and buffer identifiers, the
    observer's registry of per-connection status queues, the status channel
    that posts release, acknowledgement and transfer messages, and the
    invalidation channel with its listener.

    Conventions.
    - [uint32_t] values are integers in [0, 2^32); unsigned subtraction is
      written out with its reduction modulo [2^32].
    - [size_t] counts (queue room, list sizes, loop bounds) are natural
      numbers.
    - The fast message queue is a collaborator whose code is not part of the
      file: the functions below are written against the interface
      [MessageQueue], every branch the source takes on a failed [read] or
      [write] is kept, and [QueueContract] states what a bounded first-in
      first-out queue guarantees.  [Fmq] is such a queue.
    - A method that mutates its object or a reference argument returns the
      new values next to its result.  Dereferencing a null [unique_ptr] and
      calling [front()] on an empty list have no defined behaviour in C++;
      they are the outcome [Undefined]. *)

From Stdlib Require Import ZArith List Bool Lia Sorted.
Import ListNotations.

(** ** Fixed-width identifiers *)

Definition uint32_t : Type := Z.
Definition BufferId : Type := uint32_t.
Definition ConnectionId : Type := Z.
Definition TransactionId : Type := Z.

Definition is_uint32 (z : Z) : Prop := (0 <= z < 2 ^ 32)%Z.

(** Reduction of an integer to its [uint32_t] representative. *)
Definition wrap32 (z : Z) : uint32_t := (z mod 2 ^ 32)%Z.

(** [a - b] on [uint32_t] operands. *)
Definition sub32 (a b : uint32_t) : uint32_t := wrap32 (a - b).

(** ** Wrap-around comparisons *)

(** [bool isMessageLater(uint32_t curMsgId, uint32_t prevMsgId)] *)
Definition isMessageLater (curMsgId prevMsgId : uint32_t) : bool :=
  negb (curMsgId =? prevMsgId)%Z
  && (sub32 curMsgId prevMsgId <? sub32 prevMsgId curMsgId)%Z.

(** [bool isBufferInRange(BufferId from, BufferId to, BufferId bufferId)] *)
Definition isBufferInRange (from to bufferId : BufferId) : bool :=
  if (from <? to)%Z
  then (from <=? bufferId)%Z && (bufferId <? to)%Z
  else (* wrap happens *)
       (from <=? bufferId)%Z || (bufferId <? to)%Z.

(** ** Messages and result codes *)

(** Modelled from the spec: the enumeration [BufferStatus] is declared in a
    generated header that is not among the sources; these are the statuses
    the data model lists.  The file names [NOT_USED] and [INVALIDATION_ACK]
    and passes the others through. *)
Inductive BufferStatus : Type :=
  | NOT_USED
  | USED
  | TRANSFER_TO
  | TRANSFER_FROM
  | TRANSFER_TIMEOUT
  | INVALIDATION_ACK.

(** Modelled from the spec: the record [BufferStatusMessage] is declared in
    a generated header that is not among the sources; the fields are the
    data model's, in its order. *)
Record BufferStatusMessage : Type := {
  bufferId : BufferId;
  status : BufferStatus;
  connectionId : ConnectionId;
  targetConnectionId : ConnectionId;
  transactionId : TransactionId;
  timestampUs : Z
}.

Definition set_bufferId (v : BufferId) (m : BufferStatusMessage) :=
  {| bufferId := v; status := status m; connectionId := connectionId m;
     targetConnectionId := targetConnectionId m;
     transactionId := transactionId m; timestampUs := timestampUs m |}.

Definition set_status (v : BufferStatus) (m : BufferStatusMessage) :=
  {| bufferId := bufferId m; status := v; connectionId := connectionId m;
     targetConnectionId := targetConnectionId m;
     transactionId := transactionId m; timestampUs := timestampUs m |}.

Definition set_connectionId (v : ConnectionId) (m : BufferStatusMessage) :=
  {| bufferId := bufferId m; status := status m; connectionId := v;
     targetConnectionId := targetConnectionId m;
     transactionId := transactionId m; timestampUs := timestampUs m |}.

(** Modelled from the spec: the record [BufferInvalidationMessage], declared
    in the same missing header. *)
Record BufferInvalidationMessage : Type := {
  messageId : uint32_t;
  fromBufferId : BufferId;
  toBufferId : BufferId
}.

(** The result codes [open] and [close] return; the enumeration
    [ResultStatus] itself is declared in a header that is not among the
    sources. *)
Inductive ResultStatus : Type :=
  | OK
  | CRITICAL_ERROR
  | NO_MEMORY.

Definition BufferPoolStatus : Type := ResultStatus.

Definition kNumElementsInQueue : nat := 1024 * 16.
Definition kMinElementsToSyncInQueue : nat := 128.

(** ** Outcomes *)

Inductive outcome (A : Type) : Type :=
  | Done (a : A)
  | Undefined.
Arguments Done {A} a.
Arguments Undefined {A}.

Definition bind {A B : Type} (c : outcome A) (k : A -> outcome B) : outcome B :=
  match c with
  | Done a => k a
  | Undefined => Undefined
  end.

Notation "x <- c ;; k" := (bind c (fun x => k))
  (at level 61, c at next level, right associativity).

(** [*p] or [p->] on a [unique_ptr]. *)
Definition deref {A : Type} (p : option A) : outcome A :=
  match p with
  | Some a => Done a
  | None => Undefined
  end.

(** ** The message queue interface

    What the file calls on a queue of records of type [M]: [Q] is the state
    of a queue object, [D] its descriptor.  [write q m] is [write(&m, 1)]
    and [read q n] is [read(buf, n)]: each returns the queue's new state,
    [write] with the call's boolean, [read] with the [n] records copied out
    on success and [None] on failure. *)
Class MessageQueue (M Q D : Type) : Type := {
  newQueue : nat -> Q;
  attachQueue : D -> Q;
  isValid : Q -> bool;
  dupeDesc : Q -> D;
  availableToRead : Q -> nat;
  availableToWrite : Q -> nat;
  write : Q -> M -> bool * Q;
  read : Q -> nat -> option (list M) * Q
}.

(** The queue after the given records have been written one after the other,
    when every one of these writes reports success. *)
Fixpoint write_all {M Q D : Type} `{MessageQueue M Q D}
    (q : Q) (ms : list M) : option Q :=
  match ms with
  | [] => Some q
  | m :: ms' =>
      match write q m with
      | (true, q') => write_all q' ms'
      | (false, _) => None
      end
  end.

(** What a bounded first-in first-out queue guarantees, in terms of the
    records [content q] it holds, oldest first: a write into free room
    succeeds, appends the record and takes one slot; a write into a full
    queue fails; a read of no more records than are available succeeds and
    removes them from the front. *)
Class QueueContract {M Q D : Type} `{MessageQueue M Q D}
    (content : Q -> list M) : Prop := {
  availableToRead_content :
    forall q, availableToRead q = length (content q);
  write_room :
    forall q m, 0 < availableToWrite q ->
    exists q', write q m = (true, q')
               /\ content q' = content q ++ [m]
               /\ availableToWrite q' = availableToWrite q - 1;
  write_full :
    forall q m, availableToWrite q = 0 -> fst (write q m) = false;
  read_available :
    forall q n, n <= availableToRead q ->
    exists q', read q n = (Some (firstn n (content q)), q')
               /\ content q' = skipn n (content q)
}.

(** ** [std::map] keyed by [ConnectionId]

    The container behind [mBufferStatusQueues], with the three operations
    the observer calls and its iteration.  Entries are kept in ascending key
    order, the order in which the container is iterated; [find] and [erase]
    go by the key alone. *)
Module StdMap.
Section WithValue.
Context {V : Type}.

Definition t : Type := list (ConnectionId * V).

Fixpoint find (k : ConnectionId) (m : t) : option V :=
  match m with
  | [] => None
  | (k', v) :: m' => if (k' =? k)%Z then Some v else find k m'
  end.

(** [insert] keeps an existing entry and reports [false] for it. *)
Fixpoint insert (k : ConnectionId) (v : V) (m : t) : t * bool :=
  match m with
  | [] => ([(k, v)], true)
  | (k', v') :: m' =>
      if (k <? k')%Z then ((k, v) :: m, true)
      else if (k =? k')%Z then (m, false)
      else let (r, fresh) := insert k v m' in ((k', v') :: r, fresh)
  end.

Definition erase (k : ConnectionId) (m : t) : t :=
  filter (fun e => negb (fst e =? k)%Z) m.

Definition keys (m : t) : list ConnectionId := map fst m.
End WithValue.
Arguments t V : clear implicits.
End StdMap.

(** ** BufferStatusObserver *)
Module BufferStatusObserver.
Section WithQueue.
Context {Q D : Type} `{MessageQueue BufferStatusMessage Q D}.

(** The value of a [BufferStatusMessage message;] declaration before any
    field is assigned. *)
Variable declared : BufferStatusMessage.

(** [BufferPoolStatus open(ConnectionId id, StatusDescriptor* fmqDescPtr)]:
    the result, the registry and [*fmqDescPtr] on return. *)
Definition open (mBufferStatusQueues : StdMap.t Q)
    (id : ConnectionId) (fmqDesc : D) : BufferPoolStatus * StdMap.t Q * D :=
  match StdMap.find id mBufferStatusQueues with
  | Some _ => (CRITICAL_ERROR, mBufferStatusQueues, fmqDesc)
  | None =>
      let queue := newQueue kNumElementsInQueue in
      if negb (isValid queue) then (NO_MEMORY, mBufferStatusQueues, fmqDesc)
      else
        let fmqDesc' := dupeDesc queue in
        let (queues', inserted) :=
          StdMap.insert id queue mBufferStatusQueues in
        if negb inserted then (NO_MEMORY, queues', fmqDesc')
        else (OK, queues', fmqDesc')
  end.

(** [BufferPoolStatus close(ConnectionId id)] *)
Definition close (mBufferStatusQueues : StdMap.t Q) (id : ConnectionId)
    : BufferPoolStatus * StdMap.t Q :=
  match StdMap.find id mBufferStatusQueues with
  | None => (CRITICAL_ERROR, mBufferStatusQueues)
  | Some _ => (OK, StdMap.erase id mBufferStatusQueues)
  end.

(** The [while (avail > 0)] loop over one queue.  The boolean is [false]
    when a read failed and the method returned from inside the loop. *)
Fixpoint drainQueue (avail : nat) (id : ConnectionId) (q : Q)
    (message : BufferStatusMessage) (messages : list BufferStatusMessage)
    : bool * Q * list BufferStatusMessage :=
  match avail with
  | 0 => (true, q, messages)
  | S avail' =>
      match read q 1 with
      | (None, q') => (false, q', messages)
      | (Some records, q') =>
          let message := set_connectionId id (hd message records) in
          drainQueue avail' id q' message (messages ++ [message])
      end
  end.

(** [void getBufferStatusChanges(std::vector<BufferStatusMessage> &messages)]:
    the registry with its queues as the reads left them, and [messages]. *)
Fixpoint getBufferStatusChanges (mBufferStatusQueues : StdMap.t Q)
    (messages : list BufferStatusMessage)
    : StdMap.t Q * list BufferStatusMessage :=
  match mBufferStatusQueues with
  | [] => ([], messages)
  | (id, q) :: rest =>
      let '(complete, q', messages') :=
        drainQueue (availableToRead q) id q declared messages in
      if complete then
        let (rest', out) := getBufferStatusChanges rest messages' in
        ((id, q') :: rest', out)
      else ((id, q') :: rest, messages')
  end.
End WithQueue.
End BufferStatusObserver.

(** ** BufferStatusChannel *)
Module BufferStatusChannel.
Section WithQueue.
Context {Q D : Type} `{MessageQueue BufferStatusMessage Q D}.

(** The value of a [BufferStatusMessage message;] declaration before any
    field is assigned. *)
Variable declared : BufferStatusMessage.

Record t : Type := {
  mValid : bool;
  mBufferStatusQueue : option Q
}.

(** The channel after a call has changed the queue behind its pointer. *)
Definition with_queue (ch : t) (q : Q) : t :=
  {| mValid := mValid ch; mBufferStatusQueue := Some q |}.

(** What the constructor establishes: a valid channel holds a queue. *)
Definition well_formed (ch : t) : Prop :=
  mValid ch = true -> mBufferStatusQueue ch <> None.

(** [BufferStatusChannel(const StatusDescriptor &fmqDesc)] *)
Definition new (fmqDesc : D) : t :=
  let queue := attachQueue fmqDesc in
  if negb (isValid queue)
  then {| mValid := false; mBufferStatusQueue := None |}
  else {| mValid := true; mBufferStatusQueue := Some queue |}.

(** [bool isValid()] *)
Definition isValid (ch : t) : bool := mValid ch.

(** [bool needsSync()] *)
Definition needsSync (ch : t) : outcome bool :=
  if mValid ch then
    q <- deref (mBufferStatusQueue ch) ;;
    let avail := availableToWrite q in
    Done (avail + kMinElementsToSyncInQueue <? kNumElementsInQueue)
  else Done false.

(** The message a release loop writes for the buffer [id]. *)
Definition releaseMessage (connectionId : ConnectionId) (id : BufferId)
    : BufferStatusMessage :=
  set_connectionId connectionId (set_bufferId id (set_status NOT_USED declared)).

(** The [for] loop of [postBufferRelease]; a failed write returns from the
    method with the lists as they are. *)
Fixpoint postBufferRelease_loop (avail : nat) (connectionId : ConnectionId)
    (q : Q) (pending posted : list BufferId)
    : outcome (Q * list BufferId * list BufferId) :=
  match avail with
  | 0 => Done (q, pending, posted)
  | S avail' =>
      match pending with
      | [] => Undefined
      | id :: rest =>
          let (sent, q') := write q (releaseMessage connectionId id) in
          if negb sent then Done (q', pending, posted)
          else postBufferRelease_loop avail' connectionId q' rest (posted ++ [id])
      end
  end.

(** [void postBufferRelease(ConnectionId connectionId,
      std::list<BufferId> &pending, std::list<BufferId> &posted)]:
    the channel, [pending] and [posted] on return. *)
Definition postBufferRelease (ch : t) (connectionId : ConnectionId)
    (pending posted : list BufferId)
    : outcome (t * list BufferId * list BufferId) :=
  if mValid ch && (0 <? length pending) then
    q <- deref (mBufferStatusQueue ch) ;;
    let avail := availableToWrite q in
    let avail := Nat.min avail (length pending) in
    r <- postBufferRelease_loop avail connectionId q pending posted ;;
    let '(q', pending', posted') := r in
    Done (with_queue ch q', pending', posted')
  else Done (ch, pending, posted).

(** The message [postBufferInvalidateAck] writes. *)
Definition ackMessage (connectionId : ConnectionId) (invalidateId : uint32_t)
    : BufferStatusMessage :=
  set_connectionId connectionId
    (set_bufferId invalidateId (set_status INVALIDATION_ACK declared)).

(** [void postBufferInvalidateAck(ConnectionId connectionId,
      uint32_t invalidateId, bool *invalidated)]:
    the channel and [*invalidated] on return. *)
Definition postBufferInvalidateAck (ch : t) (connectionId : ConnectionId)
    (invalidateId : uint32_t) (invalidated : bool) : outcome (t * bool) :=
  if mValid ch && negb invalidated then
    q <- deref (mBufferStatusQueue ch) ;;
    let avail := availableToWrite q in
    if 0 <? avail then
      let (sent, q') := write q (ackMessage connectionId invalidateId) in
      if negb sent then Done (with_queue ch q', invalidated)
      else Done (with_queue ch q', true)
    else Done (ch, invalidated)
  else Done (ch, invalidated).

(** The status message of [postBufferStatusMessage]: every field is
    assigned, the timestamp with zero. *)
Definition statusMessage (transactionId : TransactionId) (bufferId : BufferId)
    (status : BufferStatus) (connectionId targetId : ConnectionId)
    : BufferStatusMessage :=
  {| bufferId := bufferId; status := status; connectionId := connectionId;
     targetConnectionId := targetId; transactionId := transactionId;
     timestampUs := 0%Z |}.

(** The [for] loop of [postBufferStatusMessage]; the boolean is [false]
    when a write failed and the method returned [false] from inside the
    loop. *)
Fixpoint postBufferStatusMessage_loop (numPending : nat)
    (connectionId : ConnectionId) (q : Q) (pending posted : list BufferId)
    : outcome (bool * Q * list BufferId * list BufferId) :=
  match numPending with
  | 0 => Done (true, q, pending, posted)
  | S n =>
      match pending with
      | [] => Undefined
      | id :: rest =>
          let (sent, q') := write q (releaseMessage connectionId id) in
          if negb sent then Done (false, q', pending, posted)
          else postBufferStatusMessage_loop n connectionId q' rest (posted ++ [id])
      end
  end.

(** [bool postBufferStatusMessage(TransactionId transactionId,
      BufferId bufferId, BufferStatus status, ConnectionId connectionId,
      ConnectionId targetId, std::list<BufferId> &pending,
      std::list<BufferId> &posted)]:
    the result, the channel, [pending] and [posted] on return. *)
Definition postBufferStatusMessage (ch : t) (transactionId : TransactionId)
    (bufferId : BufferId) (status : BufferStatus)
    (connectionId targetId : ConnectionId) (pending posted : list BufferId)
    : outcome (bool * t * list BufferId * list BufferId) :=
  if mValid ch then
    q <- deref (mBufferStatusQueue ch) ;;
    let avail := availableToWrite q in
    let numPending := length pending in
    if numPending + 1 <=? avail then
      r <- postBufferStatusMessage_loop numPending connectionId q pending posted ;;
      let '(flushed, q1, pending', posted') := r in
      if negb flushed then Done (false, with_queue ch q1, pending', posted')
      else
        let message :=
          statusMessage transactionId bufferId status connectionId targetId in
        let (sent, q2) := write q1 message in
        if negb sent then Done (false, with_queue ch q2, pending', posted')
        else Done (true, with_queue ch q2, pending', posted')
    else Done (false, ch, pending, posted)
  else Done (false, ch, pending, posted).
End WithQueue.
Arguments t Q : clear implicits.
End BufferStatusChannel.

(** ** BufferInvalidationListener *)
Module BufferInvalidationListener.
Section WithQueue.
Context {Q D : Type} `{MessageQueue BufferInvalidationMessage Q D}.

Record t : Type := {
  mValid : bool;
  mBufferInvalidationQueue : option Q
}.

(** [BufferInvalidationListener(const InvalidationDescriptor &fmqDesc)];
    the result of the draining read is not looked at. *)
Definition new (fmqDesc : D) : t :=
  let queue := attachQueue fmqDesc in
  if negb (isValid queue)
  then {| mValid := false; mBufferInvalidationQueue := None |}
  else
    let avail := Nat.min (availableToRead queue) kNumElementsInQueue in
    let queue' := if 0 <? avail then snd (read queue avail) else queue in
    {| mValid := true; mBufferInvalidationQueue := Some queue' |}.

(** The [for (int i = 0; i < 2; ++i)] loop with [tries] iterations left;
    [temp] holds the [avail] records the read copied out. *)
Fixpoint getInvalidations_loop (tries : nat) (q : Q)
    (messages : list BufferInvalidationMessage)
    : Q * list BufferInvalidationMessage :=
  match tries with
  | 0 => (q, messages)
  | S tries' =>
      let avail := Nat.min (availableToRead q) kNumElementsInQueue in
      if 0 <? avail then
        match read q avail with
        | (Some temp, q') => (q', messages ++ temp)
        | (None, q') => getInvalidations_loop tries' q' messages
        end
      else (q, messages)
  end.

(** [void getInvalidations(std::vector<BufferInvalidationMessage> &messages)]:
    the listener and [messages] on return.  The method goes through
    [mBufferInvalidationQueue] without looking at [mValid]. *)
Definition getInvalidations (l : t)
    (messages : list BufferInvalidationMessage)
    : outcome (t * list BufferInvalidationMessage) :=
  q <- deref (mBufferInvalidationQueue l) ;;
  let (q', messages') := getInvalidations_loop 2 q messages in
  Done ({| mValid := mValid l; mBufferInvalidationQueue := Some q' |},
        messages').

(** [bool isValid()] *)
Definition isValid (l : t) : bool := mValid l.
End WithQueue.
Arguments t Q : clear implicits.
End BufferInvalidationListener.

(** ** BufferInvalidationChannel *)
Module BufferInvalidationChannel.
Section WithQueue.
Context {Q D : Type} `{MessageQueue BufferInvalidationMessage Q D}.

(** [mBufferInvalidationQueue] comes from [make_unique] in the member
    initialiser and is never null. *)
Record t : Type := {
  mValid : bool;
  mBufferInvalidationQueue : Q
}.

(** [BufferInvalidationChannel()] *)
Definition new : t :=
  let queue := newQueue kNumElementsInQueue in
  {| mValid := isValid queue; mBufferInvalidationQueue := queue |}.

(** [void getDesc(InvalidationDescriptor *fmqDescPtr)] *)
Definition getDesc (ch : t) (fmqDesc : D) : D :=
  if mValid ch then dupeDesc (mBufferInvalidationQueue ch) else fmqDesc.

(** [void postInvalidation(uint32_t msgId, BufferId fromId, BufferId toId)];
    the result of the write is not looked at. *)
Definition postInvalidation (ch : t) (msgId : uint32_t)
    (fromId toId : BufferId) : t :=
  let message :=
    {| messageId := msgId; fromBufferId := fromId; toBufferId := toId |} in
  {| mValid := mValid ch;
     mBufferInvalidationQueue :=
       snd (write (mBufferInvalidationQueue ch) message) |}.
End WithQueue.
Arguments t Q : clear implicits.
End BufferInvalidationChannel.

(** ** A bounded first-in first-out queue *)

(** Modelled from the spec: the fast message queue itself is an external
    collaborator; this is the fixed-capacity record queue its interface
    describes, with the records held oldest first.  A descriptor stands for
    the queue it describes, and attaching to it yields that queue. *)
Module Fmq.
Section WithRecord.
Context {M : Type}.

Record t : Type := {
  capacity : nat;
  items : list M;
  valid : bool
}.

Definition fmq_new (n : nat) : t :=
  {| capacity := n; items := []; valid := true |}.

Definition fmq_availableToWrite (q : t) : nat :=
  capacity q - length (items q).

Definition fmq_write (q : t) (m : M) : bool * t :=
  if length (items q) <? capacity q
  then (true, {| capacity := capacity q; items := items q ++ [m];
                 valid := valid q |})
  else (false, q).

Definition fmq_read (q : t) (n : nat) : option (list M) * t :=
  if n <=? length (items q)
  then (Some (firstn n (items q)),
        {| capacity := capacity q; items := skipn n (items q);
           valid := valid q |})
  else (None, q).

Definition queue : MessageQueue M t t := {|
  newQueue := fmq_new;
  attachQueue := fun d => d;
  isValid := valid;
  dupeDesc := fun q => q;
  availableToRead := fun q => length (items q);
  availableToWrite := fmq_availableToWrite;
  write := fmq_write;
  read := fmq_read
|}.
End WithRecord.
Arguments t M : clear implicits.
#[global] Existing Instance queue.
End Fmq.

(** ** Sample values for the worked instances *)

(** A message with every field zero. *)
Definition zeroMessage : BufferStatusMessage :=
  {| bufferId := 0%Z; status := NOT_USED; connectionId := 0%Z;
     targetConnectionId := 0%Z; transactionId := 0%Z; timestampUs := 0%Z |}.

(** A status channel attached to an empty queue of [n] slots. *)
Definition sampleChannel (n : nat)
    : BufferStatusChannel.t (Fmq.t BufferStatusMessage) :=
  BufferStatusChannel.new (Fmq.fmq_new n).

(** An invalidation queue of four slots holding the given records, and the
    descriptor of a queue that cannot be attached to. *)
Definition backlogQueue (records : list BufferInvalidationMessage)
    : Fmq.t BufferInvalidationMessage :=
  {| Fmq.capacity := 4; Fmq.items := records; Fmq.valid := true |}.

Definition brokenDescriptor : Fmq.t BufferInvalidationMessage :=
  {| Fmq.capacity := 0; Fmq.items := []; Fmq.valid := false |}.

(** Two invalidation records. *)
Definition sampleInvalidations : list BufferInvalidationMessage :=
  [ {| messageId := 1%Z; fromBufferId := 0%Z; toBufferId := 8%Z |};
    {| messageId := 2%Z; fromBufferId := 8%Z; toBufferId := 16%Z |} ].

(** ** A queue whose reads and writes fail *)

(** A queue that reports the records and the room of a bounded queue while
    every [read] and [write] on it fails: the situation behind the branches
    the source marks with "this should not happen". *)
Module Spurious.
Section WithRecord.
Context {M : Type}.

Inductive t : Type :=
  | Stuck (q : Fmq.t M).

Definition inner (s : t) : Fmq.t M :=
  match s with Stuck q => q end.

Definition queue : MessageQueue M t t := {|
  newQueue := fun n => Stuck (Fmq.fmq_new n);
  attachQueue := fun d => d;
  isValid := fun s => Fmq.valid (inner s);
  dupeDesc := fun s => s;
  availableToRead := fun s => length (Fmq.items (inner s));
  availableToWrite := fun s => Fmq.fmq_availableToWrite (inner s);
  write := fun s _ => (false, s);
  read := fun s _ => (None, s)
|}.
End WithRecord.
Arguments t M : clear implicits.
#[global] Existing Instance queue.
End Spurious.

(** ** A queue that counts its failed reads *)

(** A queue that reports the records of a bounded queue, fails every
    [read] and keeps count of the reads that were tried on it. *)
Module Counting.
Section WithRecord.
Context {M : Type}.

Record t : Type := {
  reads : nat;
  inner : Fmq.t M
}.

Definition queue : MessageQueue M t t := {|
  newQueue := fun n => {| reads := 0; inner := Fmq.fmq_new n |};
  attachQueue := fun d => d;
  isValid := fun s => Fmq.valid (inner s);
  dupeDesc := fun s => s;
  availableToRead := fun s => length (Fmq.items (inner s));
  availableToWrite := fun s => Fmq.fmq_availableToWrite (inner s);
  write := fun s _ => (false, s);
  read := fun s _ => (None, {| reads := S (reads s); inner := inner s |})
|}.
End WithRecord.
Arguments t M : clear implicits.
#[global] Existing Instance queue.
End Counting.

(** An invalidation queue whose backlog is [kNumElementsInQueue] blank
    records followed by the two sample records. *)
Definition overfullBacklog : Fmq.t BufferInvalidationMessage :=
  {| Fmq.capacity := 2 * kNumElementsInQueue;
     Fmq.items :=
       repeat {| messageId := 0%Z; fromBufferId := 0%Z; toBufferId := 0%Z |}
              kNumElementsInQueue
       ++ sampleInvalidations;
     Fmq.valid := true |}.

(** * Properties *)

(** ** Wrap-around comparisons *)

Section WrapAround.
Local Open Scope Z_scope.

Lemma sub32_range (a b : Z) : 0 <= sub32 a b < 2 ^ 32.
Proof. unfold sub32, wrap32. apply Z.mod_pos_bound. reflexivity. Qed.

(** The forward and the backward distance of two distinct identifiers add
    up to the size of the identifier space. *)
Lemma sub32_opposite (a b : Z) :
  is_uint32 a -> is_uint32 b -> a <> b ->
  sub32 a b + sub32 b a = 2 ^ 32.
Proof.
  unfold is_uint32, sub32, wrap32. intros Ha Hb Hab.
  change (2 ^ 32) with 4294967296 in *.
  destruct (Z_lt_le_dec a b) as [Hlt | Hge].
  - rewrite (Z.mod_small (b - a)) by lia.
    rewrite <- (Z.mod_unique (a - b) 4294967296 (-1) (a - b + 4294967296)); lia.
  - rewrite (Z.mod_small (a - b)) by lia.
    rewrite <- (Z.mod_unique (b - a) 4294967296 (-1) (b - a + 4294967296)); lia.
Qed.

Lemma isMessageLater_spec (cur prev : Z) :
  isMessageLater cur prev = true <->
  cur <> prev /\ sub32 cur prev < sub32 prev cur.
Proof.
  unfold isMessageLater.
  rewrite andb_true_iff, negb_true_iff, Z.eqb_neq, Z.ltb_lt. tauto.
Qed.

(** Later means: forward distance below half of the identifier space. *)
Lemma isMessageLater_half (a b : Z) :
  is_uint32 a -> is_uint32 b -> a <> b ->
  isMessageLater a b = (sub32 a b <? 2 ^ 31).
Proof.
  intros Ha Hb Hab. pose proof (sub32_opposite a b Ha Hb Hab) as Hsum.
  unfold isMessageLater.
  destruct (Z.eqb_spec a b) as [-> | _]; [contradiction |]. cbn [negb andb].
  change (2 ^ 32) with 4294967296 in Hsum. change (2 ^ 31) with 2147483648.
  destruct (Z.ltb_spec (sub32 a b) (sub32 b a));
    destruct (Z.ltb_spec (sub32 a b) 2147483648); lia || reflexivity.
Qed.

(** At the antipodal distance neither identifier is later than the other. *)
Lemma isMessageLater_antipodal (a b : Z) :
  is_uint32 a -> is_uint32 b -> sub32 a b = 2 ^ 31 ->
  isMessageLater a b = false /\ isMessageLater b a = false.
Proof.
  intros Ha Hb Hd.
  assert (Hab : a <> b).
  { intros ->. unfold sub32, wrap32 in Hd. rewrite Z.sub_diag in Hd.
    discriminate Hd. }
  pose proof (sub32_opposite a b Ha Hb Hab) as Hsum.
  assert (Hba : b <> a) by congruence.
  rewrite (isMessageLater_half a b Ha Hb Hab), (isMessageLater_half b a Hb Ha Hba).
  change (2 ^ 32) with 4294967296 in Hsum. change (2 ^ 31) with 2147483648 in *.
  split; apply Z.ltb_ge; lia.
Qed.

(** C3.  For 32-bit unsigned identifiers [a <> b] whose wrapping distance
    is not exactly half of the identifier space, exactly one of
    [isMessageLater a b] and [isMessageLater b a] is true; and
    [isMessageLater cur prev] holds exactly when [cur <> prev] and the
    wrapping forward distance [cur - prev] is strictly below the backward
    distance [prev - cur]. *)
Theorem isMessageLater_total_order_off_antipode (a b : uint32_t) :
  (is_uint32 a -> is_uint32 b -> a <> b -> sub32 a b <> 2 ^ 31 ->
   isMessageLater a b = negb (isMessageLater b a)
   /\ xorb (isMessageLater a b) (isMessageLater b a) = true)
  /\ (isMessageLater a b = true <-> a <> b /\ sub32 a b < sub32 b a).
Proof.
  split; [| apply isMessageLater_spec].
  intros Ha Hb Hab Hd.
  pose proof (sub32_opposite a b Ha Hb Hab) as Hsum.
  assert (Hba : b <> a) by congruence.
  rewrite (isMessageLater_half a b Ha Hb Hab), (isMessageLater_half b a Hb Ha Hba).
  change (2 ^ 32) with 4294967296 in Hsum. change (2 ^ 31) with 2147483648 in *.
  destruct (Z.ltb_spec (sub32 a b) 2147483648);
    destruct (Z.ltb_spec (sub32 b a) 2147483648);
    cbn; split; reflexivity || lia.
Qed.

(** The identifiers 1 and 2^32 - 1 lie two apart across the wrap: 1 is the
    later one. *)
Lemma isMessageLater_total_order_off_antipode_witness :
  isMessageLater 1 4294967295 = negb (isMessageLater 4294967295 1)
  /\ xorb (isMessageLater 1 4294967295) (isMessageLater 4294967295 1) = true.
Proof.
  apply (proj1 (isMessageLater_total_order_off_antipode 1 4294967295));
    unfold is_uint32; vm_compute; intuition discriminate.
Defined.

(** C4.  [isBufferInRange from to id] is the bounds check
    [from <= id && id < to] when [from < to] in plain numeric order and
    [id >= from || id < to] otherwise; the examples of a range that wraps
    evaluate as stated. *)
Theorem isBufferInRange_cases (from to id : BufferId) :
  (from < to -> isBufferInRange from to id = (from <=? id) && (id <? to))
  /\ (~ from < to -> isBufferInRange from to id = (id >=? from) || (id <? to))
  /\ (from < to -> (isBufferInRange from to id = true <-> from <= id < to))
  /\ (~ from < to ->
      (isBufferInRange from to id = true <-> id >= from \/ id < to))
  /\ isBufferInRange 250 10 255 = true
  /\ isBufferInRange 250 10 10 = false
  /\ isBufferInRange 250 10 5 = true.
Proof.
  unfold isBufferInRange. rewrite Z.geb_leb.
  destruct (Z.ltb_spec from to) as [Hlt | Hge];
    repeat split; try reflexivity; intros; lia.
Qed.

(** A plain range, and a range that wraps at the top of the 32-bit space. *)
Lemma isBufferInRange_cases_witness :
  isBufferInRange 3 7 5 = (3 <=? 5) && (5 <? 7)
  /\ isBufferInRange 4294967290 10 4294967295
     = (4294967295 >=? 4294967290) || (4294967295 <? 10).
Proof.
  split.
  - apply (proj1 (isBufferInRange_cases 3 7 5)). lia.
  - apply (proj1 (proj2 (isBufferInRange_cases 4294967290 10 4294967295))). lia.
Defined.

(** C10.  A range whose two ends coincide takes the wrapped branch, whose
    disjunction [id >= x || id < x] always holds: [isBufferInRange x x id]
    is true for every [x] and [id]. *)
Theorem isBufferInRange_equal_ends_is_full (x id : BufferId) :
  isBufferInRange x x id = true.
Proof.
  unfold isBufferInRange. rewrite Z.ltb_irrefl.
  destruct (Z.leb_spec x id); [reflexivity |].
  cbn. apply Z.ltb_lt. assumption.
Qed.

End WrapAround.

(** ** Writing a sequence of records *)

Section WriteAll.
Context {M Q D : Type} `{MessageQueue M Q D}.

Lemma write_all_app (q : Q) (ms1 ms2 : list M) :
  write_all q (ms1 ++ ms2) =
  match write_all q ms1 with
  | Some q1 => write_all q1 ms2
  | None => None
  end.
Proof.
  revert q. induction ms1 as [| m ms1 IH]; intros q; cbn; [reflexivity |].
  destruct (write q m) as [[] q']; [apply IH | reflexivity].
Qed.

Context (content : Q -> list M) `{!QueueContract content}.

(** With room for all of them, the records are written and queued in
    order. *)
Lemma write_all_room (ms : list M) (q : Q) :
  length ms <= availableToWrite q ->
  exists q', write_all q ms = Some q'
             /\ content q' = content q ++ ms
             /\ availableToWrite q' = availableToWrite q - length ms.
Proof.
  revert q. induction ms as [| m ms IH]; intros q Hroom; cbn in *.
  - exists q. rewrite app_nil_r. repeat split. lia.
  - destruct (write_room q m) as (q1 & Hw & Hc & Ha); [lia |].
    rewrite Hw. destruct (IH q1) as (q' & Hall & Hc' & Ha'); [lia |].
    exists q'. rewrite Hall, Hc', Hc, Ha', Ha, <- app_assoc.
    repeat split. lia.
Qed.

(** Records that were written are queued, in the order of the writes. *)
Lemma write_all_content (ms : list M) (q q' : Q) :
  write_all q ms = Some q' -> content q' = content q ++ ms.
Proof.
  revert q. induction ms as [| m ms IH]; intros q Hall; cbn in *.
  - injection Hall as <-. now rewrite app_nil_r.
  - destruct (Nat.eq_dec (availableToWrite q) 0) as [Hfull | Hroom].
    + pose proof (write_full q m Hfull) as Hf.
      destruct (write q m) as [[] q1]; cbn in Hf; discriminate.
    + destruct (write_room q m) as (q1 & Hw & Hc & _); [lia |].
      rewrite Hw in Hall. rewrite (IH _ Hall), Hc, <- app_assoc. reflexivity.
Qed.
End WriteAll.

(** [Fmq] honours the contract, with its items as content. *)
#[global] Instance Fmq_contract (M : Type) : QueueContract (Fmq.items (M := M)).
Proof.
  constructor; cbn.
  - reflexivity.
  - intros q m Hroom. unfold Fmq.fmq_availableToWrite, Fmq.fmq_write in *.
    destruct (Nat.ltb_spec (length (Fmq.items q)) (Fmq.capacity q)); [| lia].
    eexists. split; [reflexivity |]. cbn. rewrite length_app. cbn.
    split; [reflexivity | lia].
  - intros q m Hfull. unfold Fmq.fmq_availableToWrite, Fmq.fmq_write in *.
    destruct (Nat.ltb_spec (length (Fmq.items q)) (Fmq.capacity q));
      [lia | reflexivity].
  - intros q n Hn. unfold Fmq.fmq_read.
    destruct (Nat.leb_spec n (length (Fmq.items q))); [| lia].
    eexists. split; reflexivity.
Qed.

(** ** The registry *)

Section Registry.
Context {V : Type}.
Local Open Scope Z_scope.

Lemma find_insert_fresh (k : ConnectionId) (v : V) (m : StdMap.t V) :
  StdMap.find k m = None ->
  exists m', StdMap.insert k v m = (m', true)
             /\ StdMap.find k m' = Some v
             /\ forall j, j <> k -> StdMap.find j m' = StdMap.find j m.
Proof.
  induction m as [| [k' v'] m IH]; cbn; intros Hfind.
  - eexists. split; [reflexivity |]. cbn. rewrite Z.eqb_refl.
    split; [reflexivity |]. intros j Hj.
    destruct (Z.eqb_spec k j); [congruence | reflexivity].
  - destruct (Z.eqb_spec k' k) as [-> | Hne]; [discriminate |].
    destruct (Z.ltb_spec k k').
    + eexists. split; [reflexivity |]. cbn. rewrite Z.eqb_refl.
      split; [reflexivity |]. intros j Hj.
      destruct (Z.eqb_spec k j); [congruence | reflexivity].
    + destruct (Z.eqb_spec k k'); [congruence |].
      destruct (IH Hfind) as (m' & -> & Hk & Hother).
      eexists. split; [reflexivity |]. cbn.
      destruct (Z.eqb_spec k' k); [congruence |].
      split; [assumption |]. intros j Hj. rewrite (Hother j Hj). reflexivity.
Qed.

(** Registering an identifier that the lookup found absent cannot fail. *)
Lemma insert_fresh_succeeds (k : ConnectionId) (v : V) (m : StdMap.t V) :
  StdMap.find k m = None -> snd (StdMap.insert k v m) = true.
Proof.
  intros Hfind. destruct (find_insert_fresh k v m Hfind) as (m' & -> & _).
  reflexivity.
Qed.

Lemma find_erase_same (k : ConnectionId) (m : StdMap.t V) :
  StdMap.find k (StdMap.erase k m) = None.
Proof.
  induction m as [| [k' v'] m IH]; cbn; [reflexivity |].
  destruct (Z.eqb_spec k' k); cbn; [assumption |].
  destruct (Z.eqb_spec k' k); [contradiction | assumption].
Qed.

Lemma find_erase_other (j k : ConnectionId) (m : StdMap.t V) :
  j <> k -> StdMap.find j (StdMap.erase k m) = StdMap.find j m.
Proof.
  intros Hjk. unfold StdMap.erase.
  induction m as [| [k' v'] m IH]; cbn; [reflexivity |].
  destruct (Z.eqb_spec k' k) as [-> | Hne]; cbn.
  - destruct (Z.eqb_spec k j); [congruence | assumption].
  - rewrite IH. reflexivity.
Qed.
End Registry.

(** ** BufferStatusObserver *)

Section Observer.
Context {Q D : Type} `{MessageQueue BufferStatusMessage Q D}.
Variable declared : BufferStatusMessage.

(** C6.  [open] of a registered identifier returns [CRITICAL_ERROR] and
    leaves the registry (and the descriptor) as they are; of an
    unregistered one it returns [NO_MEMORY], again changing nothing, when
    the queue it constructs is not valid, and otherwise registers the
    queue constructed with capacity 16384 under the identifier, writes
    out that queue's descriptor and returns [OK].  Since the lookup has
    just found the identifier absent, the registration itself cannot
    fail: [NO_MEMORY] is returned exactly when construction fails.
    [close] of an unregistered identifier returns [CRITICAL_ERROR] and
    leaves the registry as it is; of a registered one it removes the
    identifier's queue, keeps the others and returns [OK]. *)
Theorem open_close_registry
    (queues : StdMap.t Q) (id : ConnectionId) (desc : D) :
  Z.of_nat kNumElementsInQueue = 16384%Z
  /\ (StdMap.find id queues <> None ->
      BufferStatusObserver.open queues id desc
      = (CRITICAL_ERROR, queues, desc))
  /\ (StdMap.find id queues = None ->
      isValid (newQueue kNumElementsInQueue) = false ->
      BufferStatusObserver.open queues id desc = (NO_MEMORY, queues, desc))
  /\ (StdMap.find id queues = None ->
      isValid (newQueue kNumElementsInQueue) = true ->
      exists queues',
        BufferStatusObserver.open queues id desc
        = (OK, queues', dupeDesc (newQueue kNumElementsInQueue))
        /\ StdMap.find id queues' = Some (newQueue kNumElementsInQueue)
        /\ forall j, j <> id -> StdMap.find j queues' = StdMap.find j queues)
  /\ (fst (fst (BufferStatusObserver.open queues id desc)) = NO_MEMORY <->
      StdMap.find id queues = None
      /\ isValid (newQueue kNumElementsInQueue) = false)
  /\ (StdMap.find id queues = None ->
      BufferStatusObserver.close queues id = (CRITICAL_ERROR, queues))
  /\ (StdMap.find id queues <> None ->
      BufferStatusObserver.close queues id = (OK, StdMap.erase id queues)
      /\ StdMap.find id (StdMap.erase id queues) = None
      /\ forall j, j <> id ->
           StdMap.find j (StdMap.erase id queues) = StdMap.find j queues).
Proof.
  unfold BufferStatusObserver.open, BufferStatusObserver.close.
  split; [reflexivity |].
  destruct (StdMap.find id queues) as [q |] eqn:Hfind.
  - split; [intros _; reflexivity |].
    split; [discriminate |]. split; [discriminate |].
    split; [cbn; split; [discriminate | intros [? _]; discriminate] |].
    split; [discriminate |]. intros _. split; [reflexivity |].
    split; [apply find_erase_same |].
    intros j Hj. apply find_erase_other. assumption.
  - destruct (find_insert_fresh id (newQueue kNumElementsInQueue) queues Hfind)
      as (queues' & Hins & Hid & Hother).
    rewrite Hins.
    split; [intros Hn; now contradiction Hn |].
    destruct (isValid (newQueue kNumElementsInQueue)); cbn.
    + split; [discriminate |].
      split; [intros _ _; exists queues'; repeat split; assumption |].
      split; [split; [discriminate | intros [_ ?]; discriminate] |].
      split; [reflexivity |]. intros Hn. now contradiction Hn.
    + split; [reflexivity |]. split; [discriminate |].
      split; [split; [intros _; split; reflexivity | reflexivity] |].
      split; [reflexivity |]. intros Hn. now contradiction Hn.
Qed.

Context (content : Q -> list BufferStatusMessage) `{!QueueContract content}.

(** Draining no more records than a queue holds takes them from its
    front, in order, and tags each with the queue's identifier. *)
Lemma drainQueue_all (id : ConnectionId) (n : nat) :
  forall (q : Q) (message : BufferStatusMessage)
         (out : list BufferStatusMessage),
  n <= length (content q) ->
  exists q',
    BufferStatusObserver.drainQueue n id q message out
    = (true, q', out ++ map (set_connectionId id) (firstn n (content q)))
    /\ content q' = skipn n (content q).
Proof.
  induction n as [| n IH]; intros q message out Hn; cbn.
  - exists q. rewrite app_nil_r. split; reflexivity.
  - destruct (read_available q 1) as (q1 & Hread & Hc1).
    { rewrite availableToRead_content. lia. }
    rewrite Hread.
    destruct (content q) as [| m rest] eqn:Hcq; cbn in Hn; [lia |].
    cbn in Hc1 |- *.
    destruct (IH q1 (set_connectionId id m) (out ++ [set_connectionId id m]))
      as (q' & Hdrain & Hc').
    { rewrite Hc1. lia. }
    exists q'. rewrite Hdrain, Hc', Hc1, <- app_assoc. split; reflexivity.
Qed.

(** A drain of the registry appends every queue's content, queue after
    queue in registry order, and leaves every queue empty. *)
Lemma getBufferStatusChanges_all (queues : StdMap.t Q) :
  forall out : list BufferStatusMessage,
  exists queues',
    BufferStatusObserver.getBufferStatusChanges declared queues out
    = (queues',
       out ++ flat_map (fun e => map (set_connectionId (fst e))
                                     (content (snd e))) queues)
    /\ StdMap.keys queues' = StdMap.keys queues
    /\ Forall (fun e => content (snd e) = []) queues'.
Proof.
  induction queues as [| [id q] rest IH]; intros out; cbn.
  - exists []. rewrite app_nil_r. repeat split. constructor.
  - rewrite availableToRead_content.
    destruct (drainQueue_all id (length (content q)) q declared out)
      as (q' & -> & Hc'); [lia |].
    rewrite firstn_all in *. rewrite skipn_all in Hc'.
    destruct (IH (out ++ map (set_connectionId id) (content q)))
      as (rest' & -> & Hkeys & Hempty).
    exists ((id, q') :: rest'). rewrite <- app_assoc. cbn.
    split; [reflexivity |].
    split; [cbn; f_equal; exact Hkeys | constructor; assumption].
Qed.

Lemma tagged_other (id : ConnectionId) (queues : StdMap.t Q) :
  ~ In id (StdMap.keys queues) ->
  Forall (fun m => connectionId m <> id)
         (flat_map (fun e => map (set_connectionId (fst e))
                                 (content (snd e))) queues).
Proof.
  induction queues as [| [k q] rest IH]; cbn; intros Hid; [constructor |].
  apply Forall_app. split.
  - apply Forall_forall. intros m (m0 & <- & _)%in_map_iff. cbn. tauto.
  - apply IH. tauto.
Qed.

(** C7.  When the records [written] have been written to the queue that
    is registered under [id], a drain appends exactly these records, in
    the order of the writes, each with its [connectionId] field replaced
    by [id]; what the drain appends before and after them comes from the
    other connections and is tagged with their identifiers. *)
Theorem getBufferStatusChanges_fifo_tagged
    (before after : StdMap.t Q) (id : ConnectionId) (q0 q : Q)
    (written out : list BufferStatusMessage) :
  content q0 = [] ->
  write_all q0 written = Some q ->
  ~ In id (StdMap.keys (before ++ after)) ->
  exists pre post,
    snd (BufferStatusObserver.getBufferStatusChanges declared
           (before ++ (id, q) :: after) out)
    = out ++ pre ++ map (set_connectionId id) written ++ post
    /\ length (map (set_connectionId id) written) = length written
    /\ Forall (fun m => connectionId m = id)
              (map (set_connectionId id) written)
    /\ Forall (fun m => connectionId m <> id) (pre ++ post).
Proof.
  intros Hfresh Hwritten Hid.
  pose proof (write_all_content content written q0 q Hwritten) as Hcq.
  rewrite Hfresh in Hcq. cbn in Hcq.
  destruct (getBufferStatusChanges_all (before ++ (id, q) :: after) out)
    as (queues' & -> & _).
  exists (flat_map (fun e => map (set_connectionId (fst e)) (content (snd e)))
                   before),
         (flat_map (fun e => map (set_connectionId (fst e)) (content (snd e)))
                   after).
  cbn [snd]. rewrite flat_map_app. cbn. rewrite Hcq.
  repeat split.
  - apply length_map.
  - apply Forall_forall. intros m (m0 & <- & _)%in_map_iff. reflexivity.
  - rewrite <- flat_map_app. apply tagged_other. assumption.
Qed.
End Observer.

(** ** BufferStatusChannel *)

Section StatusChannel.
Context {Q D : Type} `{MessageQueue BufferStatusMessage Q D}.
Variable declared : BufferStatusMessage.

Local Abbreviation release := (BufferStatusChannel.releaseMessage declared).
Local Abbreviation with_queue := BufferStatusChannel.with_queue.
Local Abbreviation mValid := BufferStatusChannel.mValid.
Local Abbreviation mBufferStatusQueue := BufferStatusChannel.mBufferStatusQueue.

Lemma new_well_formed (fmqDesc : D) :
  BufferStatusChannel.well_formed (BufferStatusChannel.new fmqDesc).
Proof.
  unfold BufferStatusChannel.well_formed, BufferStatusChannel.new.
  destruct (isValid (attachQueue fmqDesc)); cbn; discriminate.
Qed.

Lemma with_queue_same (ch : BufferStatusChannel.t Q) (q : Q) :
  mBufferStatusQueue ch = Some q -> with_queue ch q = ch.
Proof. destruct ch; cbn; intros ->; reflexivity. Qed.

Lemma releaseMessage_fields (cid : ConnectionId) (id : BufferId) :
  status (release cid id) = NOT_USED
  /\ bufferId (release cid id) = id
  /\ connectionId (release cid id) = cid.
Proof. repeat split. Qed.

(** The loop of [postBufferRelease] is the loop of
    [postBufferStatusMessage] without the flag. *)
Lemma postBufferRelease_loop_eq (cid : ConnectionId) (n : nat) :
  forall (q : Q) (pending posted : list BufferId),
  BufferStatusChannel.postBufferRelease_loop declared n cid q pending posted
  = (r <- BufferStatusChannel.postBufferStatusMessage_loop
            declared n cid q pending posted ;;
     Done (snd (fst (fst r)), snd (fst r), snd r)).
Proof.
  induction n as [| n IH]; intros q pending posted; cbn; [reflexivity |].
  destruct pending as [| id rest]; [reflexivity |].
  destruct (write q (release cid id)) as [[] q1]; cbn;
    [apply IH | reflexivity].
Qed.

(** However the writes turn out, the loop moves a prefix of [pending] to
    the end of [posted], and the release message of every entry it moved
    was written with success. *)
Lemma release_loop_fifo (cid : ConnectionId) (n : nat) :
  forall (q : Q) (pending posted : list BufferId),
  n <= length pending ->
  exists (k : nat) (flushed : bool) (q' qk : Q),
    k <= n
    /\ BufferStatusChannel.postBufferStatusMessage_loop
         declared n cid q pending posted
       = Done (flushed, q', skipn k pending, posted ++ firstn k pending)
    /\ write_all q (map (release cid) (firstn k pending)) = Some qk
    /\ (flushed = true -> k = n /\ q' = qk).
Proof.
  induction n as [| n IH]; intros q pending posted Hn; cbn.
  - exists 0, true, q, q. cbn. rewrite app_nil_r. repeat split. lia.
  - destruct pending as [| id rest]; cbn in Hn; [lia |].
    destruct (write q (release cid id)) as [[] q1] eqn:Hw; cbn.
    + destruct (IH q1 rest (posted ++ [id])) as (k & fl & q' & qk & Hk & -> & Hall & Hfl);
        [lia |].
      exists (S k), fl, q', qk. cbn. rewrite Hw, <- app_assoc. cbn.
      repeat split; try assumption; try lia.
      * f_equal. apply Hfl. assumption.
      * apply Hfl. assumption.
    + exists 0, false, q1, q. cbn. rewrite app_nil_r.
      repeat split; try lia; discriminate.
Qed.

(** When the release messages of the first [n] pending entries are all
    written with success, the loop moves exactly these entries. *)
Lemma release_loop_complete (cid : ConnectionId) (n : nat) :
  forall (q qn : Q) (pending posted : list BufferId),
  n <= length pending ->
  write_all q (map (release cid) (firstn n pending)) = Some qn ->
  BufferStatusChannel.postBufferStatusMessage_loop
    declared n cid q pending posted
  = Done (true, qn, skipn n pending, posted ++ firstn n pending).
Proof.
  induction n as [| n IH]; intros q qn pending posted Hn Hall; cbn in *.
  - injection Hall as <-. rewrite app_nil_r. reflexivity.
  - destruct pending as [| id rest]; cbn in *; [lia |].
    destruct (write q (release cid id)) as [[] q1]; [| discriminate].
    cbn. rewrite (IH q1 qn rest (posted ++ [id])); [| lia | assumption].
    rewrite <- app_assoc. reflexivity.
Qed.

(** C2.  Whatever the queue does, [postBufferRelease] and
    [postBufferStatusMessage] return with [posted] extended by a prefix
    of the entry-time [pending], in its order, and with [pending] equal to
    the remaining suffix; the release message of every entry of that
    prefix was written with success, one after the other, starting from
    the queue as it was on entry, and an invalid channel moves nothing.
    In [postBufferRelease] on a valid channel, when the writes of the
    first [min (availableToWrite q) (length pending)] release messages
    all succeed, exactly that many entries are moved and the rest stays
    in [pending]. *)
Theorem pending_moves_to_posted_in_order
    (ch : BufferStatusChannel.t Q) (cid : ConnectionId)
    (pending posted : list BufferId) :
  BufferStatusChannel.well_formed ch ->
  (exists ch' k,
     BufferStatusChannel.postBufferRelease declared ch cid pending posted
     = Done (ch', skipn k pending, posted ++ firstn k pending)
     /\ k <= length pending
     /\ (mValid ch = false -> k = 0)
     /\ forall q, mBufferStatusQueue ch = Some q ->
        exists qk,
          write_all q (map (release cid) (firstn k pending)) = Some qk)
  /\ (forall tid bid st target,
      exists r ch' k,
        BufferStatusChannel.postBufferStatusMessage
          declared ch tid bid st cid target pending posted
        = Done (r, ch', skipn k pending, posted ++ firstn k pending)
        /\ k <= length pending
        /\ (mValid ch = false -> k = 0)
        /\ forall q, mBufferStatusQueue ch = Some q ->
           exists qk,
             write_all q (map (release cid) (firstn k pending)) = Some qk)
  /\ (forall q qn,
      mValid ch = true -> mBufferStatusQueue ch = Some q ->
      write_all q (map (release cid)
                       (firstn (Nat.min (availableToWrite q) (length pending))
                               pending)) = Some qn ->
      BufferStatusChannel.postBufferRelease declared ch cid pending posted
      = Done (with_queue ch qn,
              skipn (Nat.min (availableToWrite q) (length pending)) pending,
              posted ++ firstn (Nat.min (availableToWrite q) (length pending))
                               pending)).
Proof.
  intros Hwf. destruct ch as [v oq].
  unfold BufferStatusChannel.well_formed in Hwf. cbn in Hwf.
  destruct v.
  2: { split; [| split].
       - eexists _, 0. cbn. rewrite app_nil_r.
         split; [reflexivity |]. split; [lia |]. split; [reflexivity |].
         intros q _. exists q. reflexivity.
       - intros tid bid st target. eexists _, _, 0. cbn. rewrite app_nil_r.
         split; [reflexivity |]. split; [lia |]. split; [reflexivity |].
         intros q _. exists q. reflexivity.
       - intros q qn Hv. discriminate Hv. }
  destruct oq as [q |]; [| exfalso; now apply Hwf].
  split; [| split].
  - unfold BufferStatusChannel.postBufferRelease. cbn [BufferStatusChannel.mValid BufferStatusChannel.mBufferStatusQueue andb deref bind].
    destruct (0 <? length pending) eqn:Hp; cbn.
    + rewrite postBufferRelease_loop_eq.
      destruct (release_loop_fifo cid
                  (Nat.min (availableToWrite q) (length pending))
                  q pending posted)
        as (k & fl & q' & qk & Hk & -> & Hall & _); [lia |].
      cbn. eexists _, k. split; [reflexivity |]. split; [lia |].
      split; [discriminate |]. intros ? [= <-]. exists qk. assumption.
    + eexists _, 0. cbn. rewrite app_nil_r.
      split; [reflexivity |]. split; [lia |]. split; [discriminate |].
      intros ? [= <-]. exists q. reflexivity.
  - intros tid bid st target.
    unfold BufferStatusChannel.postBufferStatusMessage. cbn [BufferStatusChannel.mValid BufferStatusChannel.mBufferStatusQueue andb deref bind].
    destruct (length pending + 1 <=? availableToWrite q) eqn:Hroom.
    + destruct (release_loop_fifo cid (length pending) q pending posted)
        as (k & fl & q' & qk & Hk & -> & Hall & _); [lia |].
      cbn.
      assert (Hmoved : forall q0 : Q, Some q = Some q0 ->
                exists qk0, write_all q0 (map (release cid) (firstn k pending))
                            = Some qk0).
      { intros ? [= <-]. exists qk. assumption. }
      destruct fl; cbn.
      * destruct (write q' _) as [[] q2]; cbn; eexists _, _, k;
          (split; [reflexivity |]); (split; [lia |]);
          (split; [discriminate | assumption]).
      * eexists _, _, k. split; [reflexivity |]. split; [lia |].
        split; [discriminate | assumption].
    + eexists _, _, 0. cbn. rewrite app_nil_r.
      split; [reflexivity |]. split; [lia |]. split; [discriminate |].
      intros ? [= <-]. exists q. reflexivity.
  - intros q0 qn _ [= <-] Hall.
    unfold BufferStatusChannel.postBufferRelease. cbn [BufferStatusChannel.mValid BufferStatusChannel.mBufferStatusQueue andb deref bind].
    destruct (0 <? length pending) eqn:Hp; cbn.
    + rewrite postBufferRelease_loop_eq.
      rewrite (release_loop_complete cid _ q qn pending posted);
        [reflexivity | lia | assumption].
    + destruct pending as [| id rest]; [| discriminate Hp].
      rewrite Nat.min_0_r in *. cbn in *. injection Hall as <-.
      rewrite app_nil_r. reflexivity.
Qed.

(** C8.  [postBufferInvalidateAck] on a valid channel whose flag is not
    yet set, with a free slot and a write that succeeds, writes the one
    message [ackMessage] (status [INVALIDATION_ACK], the invalidation
    identifier as buffer identifier, the given connection) and sets the
    flag.  In every other case (channel not valid, flag already set, no
    free slot, write failed) the flag is returned as it was; in the first
    three of them nothing is written. *)
Theorem postBufferInvalidateAck_flag
    (ch : BufferStatusChannel.t Q) (cid : ConnectionId)
    (invalidateId : uint32_t) (invalidated : bool) :
  (mValid ch = false ->
   BufferStatusChannel.postBufferInvalidateAck
     declared ch cid invalidateId invalidated = Done (ch, invalidated))
  /\ (invalidated = true ->
      BufferStatusChannel.postBufferInvalidateAck
        declared ch cid invalidateId invalidated = Done (ch, true))
  /\ (forall q,
      mValid ch = true -> mBufferStatusQueue ch = Some q ->
      invalidated = false ->
      (availableToWrite q = 0 ->
       BufferStatusChannel.postBufferInvalidateAck
         declared ch cid invalidateId invalidated = Done (ch, false))
      /\ (forall q',
          0 < availableToWrite q ->
          write q (BufferStatusChannel.ackMessage declared cid invalidateId)
          = (false, q') ->
          BufferStatusChannel.postBufferInvalidateAck
            declared ch cid invalidateId invalidated
          = Done (with_queue ch q', false))
      /\ (forall q',
          0 < availableToWrite q ->
          write q (BufferStatusChannel.ackMessage declared cid invalidateId)
          = (true, q') ->
          BufferStatusChannel.postBufferInvalidateAck
            declared ch cid invalidateId invalidated
          = Done (with_queue ch q', true)
          /\ write_all q [BufferStatusChannel.ackMessage
                            declared cid invalidateId] = Some q'))
  /\ status (BufferStatusChannel.ackMessage declared cid invalidateId)
     = INVALIDATION_ACK
  /\ bufferId (BufferStatusChannel.ackMessage declared cid invalidateId)
     = invalidateId
  /\ connectionId (BufferStatusChannel.ackMessage declared cid invalidateId)
     = cid.
Proof.
  unfold BufferStatusChannel.postBufferInvalidateAck.
  split; [intros ->; reflexivity |].
  split; [intros ->; rewrite andb_false_r; reflexivity |].
  split; [| repeat split].
  intros q -> -> ->. cbn [BufferStatusChannel.mValid BufferStatusChannel.mBufferStatusQueue andb deref bind]. cbn [negb].
  split; [intros ->; reflexivity |].
  split; intros q' Hroom Hw; apply Nat.ltb_lt in Hroom; rewrite Hroom, Hw;
    [reflexivity | split; [reflexivity | cbn; rewrite Hw; reflexivity]].
Qed.

Context (content : Q -> list BufferStatusMessage) `{!QueueContract content}.

(** C1.  [postBufferStatusMessage] on a valid channel with [P] pending
    entries.  With room for [P + 1] records it moves all pending entries
    to the end of [posted] in their order, writes for each a [NOT_USED]
    message and after them the status message, and returns [true]: the
    queue then holds, behind what it held, the [P] release messages in
    the order of [pending] followed by the status message.  With less
    room (for exactly [P] records, say) it returns [false] and leaves the
    channel with its queue, [pending] and [posted] as they were.  The
    records are spelled out field by field: a release message carries the
    status [NOT_USED], the identifier of the entry and the connection, its
    other fields as the declaration left them; the status message carries
    the transaction, buffer, status, connection and target given to the
    call, and the timestamp zero. *)
Theorem postBufferStatusMessage_all_or_nothing
    (ch : BufferStatusChannel.t Q) (q : Q)
    (tid : TransactionId) (bid : BufferId) (st : BufferStatus)
    (cid target : ConnectionId) (pending posted : list BufferId) :
  mValid ch = true ->
  mBufferStatusQueue ch = Some q ->
  (length pending + 1 <= availableToWrite q ->
   exists q',
     BufferStatusChannel.postBufferStatusMessage
       declared ch tid bid st cid target pending posted
     = Done (true, with_queue ch q', [], posted ++ pending)
     /\ write_all q (map (release cid) pending
                     ++ [BufferStatusChannel.statusMessage
                           tid bid st cid target]) = Some q'
     /\ content q'
        = content q ++ map (release cid) pending
          ++ [BufferStatusChannel.statusMessage tid bid st cid target]
     /\ Forall (fun m => status m = NOT_USED) (map (release cid) pending)
     /\ content q'
        = content q
          ++ map (fun id =>
                    {| bufferId := id; status := NOT_USED;
                       connectionId := cid;
                       targetConnectionId := targetConnectionId declared;
                       transactionId := transactionId declared;
                       timestampUs := timestampUs declared |}) pending
          ++ [ {| bufferId := bid; status := st; connectionId := cid;
                  targetConnectionId := target; transactionId := tid;
                  timestampUs := 0%Z |} ])
  /\ (availableToWrite q < length pending + 1 ->
      BufferStatusChannel.postBufferStatusMessage
        declared ch tid bid st cid target pending posted
      = Done (false, ch, pending, posted))
  /\ (transactionId (BufferStatusChannel.statusMessage tid bid st cid target)
      = tid
      /\ bufferId (BufferStatusChannel.statusMessage tid bid st cid target)
         = bid
      /\ status (BufferStatusChannel.statusMessage tid bid st cid target) = st
      /\ connectionId (BufferStatusChannel.statusMessage tid bid st cid target)
         = cid
      /\ targetConnectionId
           (BufferStatusChannel.statusMessage tid bid st cid target) = target
      /\ timestampUs (BufferStatusChannel.statusMessage tid bid st cid target)
         = 0%Z
      /\ forall id,
           status (release cid id) = NOT_USED
           /\ bufferId (release cid id) = id
           /\ connectionId (release cid id) = cid
           /\ targetConnectionId (release cid id) = targetConnectionId declared
           /\ transactionId (release cid id) = transactionId declared
           /\ timestampUs (release cid id) = timestampUs declared).
Proof.
  intros Hv Hq. unfold BufferStatusChannel.postBufferStatusMessage.
  rewrite Hv, Hq. cbn [deref bind]. split.
  - intros Hroom.
    destruct (write_all_room content
                (map (release cid) pending
                 ++ [BufferStatusChannel.statusMessage tid bid st cid target]) q)
      as (q' & Hall & Hc & _).
    { rewrite length_app, length_map. cbn. lia. }
    exists q'. apply Nat.leb_le in Hroom. rewrite Hroom.
    pose proof Hall as Hsplit. rewrite write_all_app in Hsplit.
    destruct (write_all q (map (release cid) pending)) as [q1 |] eqn:Hrel;
      [| discriminate].
    rewrite (release_loop_complete cid (length pending) q q1 pending posted);
      [| lia | rewrite firstn_all; assumption].
    cbn in Hsplit |- *.
    destruct (write q1 _) as [[] q2]; [| discriminate].
    injection Hsplit as ->. cbn. rewrite firstn_all, skipn_all.
    split; [reflexivity |]. split; [assumption |]. split; [assumption |].
    split; [| exact Hc].
    apply Forall_forall. intros m (entry & <- & _)%in_map_iff. reflexivity.
  - split.
    + intros Hless. apply Nat.leb_gt in Hless. rewrite Hless. reflexivity.
    + repeat split; reflexivity.
Qed.
End StatusChannel.

(** ** BufferInvalidationListener *)

Section InvalidationListener.
Context {Q D : Type} `{MessageQueue BufferInvalidationMessage Q D}.

(** A listener whose attachment failed holds no queue, and
    [getInvalidations] goes through the null pointer. *)
Lemma getInvalidations_invalid (fmqDesc : D)
    (messages : list BufferInvalidationMessage) :
  isValid (attachQueue fmqDesc) = false ->
  BufferInvalidationListener.isValid
    (BufferInvalidationListener.new fmqDesc) = false
  /\ BufferInvalidationListener.getInvalidations
       (BufferInvalidationListener.new fmqDesc) messages = Undefined.
Proof.
  intros Hinvalid.
  unfold BufferInvalidationListener.getInvalidations,
         BufferInvalidationListener.isValid, BufferInvalidationListener.new.
  rewrite Hinvalid. split; reflexivity.
Qed.

(** With nothing to read, the first pass returns at once. *)
Lemma getInvalidations_loop_empty (tries : nat) (q : Q)
    (messages : list BufferInvalidationMessage) :
  availableToRead q = 0 ->
  BufferInvalidationListener.getInvalidations_loop tries q messages
  = (q, messages).
Proof.
  intros Hnone. destruct tries as [| tries]; cbn [BufferInvalidationListener.getInvalidations_loop];
    [reflexivity |].
  rewrite Hnone. reflexivity.
Qed.

Context (content : Q -> list BufferInvalidationMessage)
        `{!QueueContract content}.

(** C9.  A listener constructed on a valid queue that holds a backlog of
    [K <= 16384] records drains and discards all of them: the queue it
    keeps is empty, and [getInvalidations] called right after the
    construction appends nothing and leaves the listener as it is. *)
Theorem new_listener_discards_backlog (fmqDesc : D)
    (messages : list BufferInvalidationMessage) :
  isValid (attachQueue fmqDesc) = true ->
  length (content (attachQueue fmqDesc)) <= kNumElementsInQueue ->
  exists q',
    BufferInvalidationListener.mBufferInvalidationQueue
      (BufferInvalidationListener.new fmqDesc) = Some q'
    /\ content q' = []
    /\ BufferInvalidationListener.getInvalidations
         (BufferInvalidationListener.new fmqDesc) messages
       = Done (BufferInvalidationListener.new fmqDesc, messages).
Proof.
  intros Hvalid Hbacklog.
  assert (Hdrained : exists q',
            BufferInvalidationListener.new fmqDesc
            = {| BufferInvalidationListener.mValid := true;
                 BufferInvalidationListener.mBufferInvalidationQueue := Some q' |}
            /\ content q' = []).
  { unfold BufferInvalidationListener.new. rewrite Hvalid. cbn [negb].
    rewrite availableToRead_content, Nat.min_l by assumption.
    destruct (0 <? length (content (attachQueue fmqDesc))) eqn:Hsome.
    - destruct (read_available (attachQueue fmqDesc)
                  (length (content (attachQueue fmqDesc))))
        as (q' & -> & Hc).
      { rewrite availableToRead_content. lia. }
      exists q'. rewrite skipn_all in Hc. split; [reflexivity | assumption].
    - exists (attachQueue fmqDesc). split; [reflexivity |].
      apply Nat.ltb_ge in Hsome. apply length_zero_iff_nil. lia. }
  destruct Hdrained as (q' & -> & Hc). exists q'.
  split; [reflexivity |]. split; [assumption |].
  unfold BufferInvalidationListener.getInvalidations. cbn [BufferInvalidationListener.mBufferInvalidationQueue deref bind].
  rewrite getInvalidations_loop_empty; [reflexivity |].
  rewrite availableToRead_content, Hc. reflexivity.
Qed.
End InvalidationListener.

(** ** Worked instances on the bounded queue *)

Section Instances.
Local Open Scope Z_scope.

Local Abbreviation release := (BufferStatusChannel.releaseMessage zeroMessage).

(** Two pending releases and a status message into three free slots: all
    three records are queued in order, with the fields shown.  Into two
    free slots: nothing. *)
Lemma postBufferStatusMessage_all_or_nothing_witness :
  BufferStatusChannel.postBufferStatusMessage
    zeroMessage (sampleChannel 3) 7 42 USED 1 2 [10; 11] [9]
  = Done (true,
          BufferStatusChannel.with_queue (sampleChannel 3)
            {| Fmq.capacity := 3;
               Fmq.items :=
                 [ {| bufferId := 10; status := NOT_USED; connectionId := 1;
                      targetConnectionId := 0; transactionId := 0;
                      timestampUs := 0 |};
                   {| bufferId := 11; status := NOT_USED; connectionId := 1;
                      targetConnectionId := 0; transactionId := 0;
                      timestampUs := 0 |};
                   {| bufferId := 42; status := USED; connectionId := 1;
                      targetConnectionId := 2; transactionId := 7;
                      timestampUs := 0 |} ];
               Fmq.valid := true |},
          [], [9; 10; 11])
  /\ BufferStatusChannel.postBufferStatusMessage
       zeroMessage (sampleChannel 2) 7 42 USED 1 2 [10; 11] [9]
     = Done (false, sampleChannel 2, [10; 11], [9]).
Proof.
  split.
  - destruct (proj1 (postBufferStatusMessage_all_or_nothing
                       zeroMessage Fmq.items (sampleChannel 3) (Fmq.fmq_new 3)
                       7 42 USED 1 2 [10; 11] [9] eq_refl eq_refl))
      as (q' & Hpost & Hall & _).
    + vm_compute. lia.
    + vm_compute in Hall. injection Hall as <-. exact Hpost.
  - apply (proj1 (proj2 (postBufferStatusMessage_all_or_nothing
                    zeroMessage Fmq.items (sampleChannel 2) (Fmq.fmq_new 2)
                    7 42 USED 1 2 [10; 11] [9] eq_refl eq_refl))).
    vm_compute. lia.
Defined.

(** Three pending releases into two free slots: the first two are moved,
    the third stays pending. *)
Lemma pending_moves_to_posted_in_order_witness :
  BufferStatusChannel.postBufferRelease
    zeroMessage (sampleChannel 2) 1 [10; 11; 12] [9]
  = Done (BufferStatusChannel.with_queue (sampleChannel 2)
            {| Fmq.capacity := 2;
               Fmq.items := [release 1 10; release 1 11];
               Fmq.valid := true |},
          [12], [9; 10; 11]).
Proof.
  exact (proj2 (proj2 (pending_moves_to_posted_in_order
                         zeroMessage (sampleChannel 2) 1 [10; 11; 12] [9]
                         (new_well_formed (Fmq.fmq_new 2))))
           (Fmq.fmq_new 2)
           {| Fmq.capacity := 2;
              Fmq.items := [release 1 10; release 1 11];
              Fmq.valid := true |}
           eq_refl eq_refl eq_refl).
Defined.

(** Registering connection 3 next to connection 7. *)
Lemma open_close_registry_witness :
  exists queues',
    BufferStatusObserver.open
      [(7, Fmq.fmq_new (M := BufferStatusMessage) 4)] 3 (Fmq.fmq_new 0)
    = (OK, queues', dupeDesc (newQueue kNumElementsInQueue))
    /\ StdMap.find 3 queues' = Some (newQueue kNumElementsInQueue)
    /\ forall j, j <> 3 ->
         StdMap.find j queues'
         = StdMap.find j [(7, Fmq.fmq_new (M := BufferStatusMessage) 4)].
Proof.
  apply (proj1 (proj2 (proj2 (proj2 (open_close_registry
           [(7, Fmq.fmq_new (M := BufferStatusMessage) 4)] 3 (Fmq.fmq_new 0))))));
    reflexivity.
Defined.

(** Two records written by connection 5, carrying the connection
    identifiers 99 and 0, are drained behind the record of connection 1,
    both tagged 5. *)
Lemma getBufferStatusChanges_fifo_tagged_witness :
  exists pre post,
    snd (BufferStatusObserver.getBufferStatusChanges zeroMessage
           ([(1, {| Fmq.capacity := 4; Fmq.items := [release 1 8];
                    Fmq.valid := true |})]
            ++ (5, {| Fmq.capacity := 4;
                      Fmq.items := [release 99 10; zeroMessage];
                      Fmq.valid := true |}) :: [])
           [])
    = [] ++ pre
      ++ map (set_connectionId 5) [release 99 10; zeroMessage] ++ post
    /\ length (map (set_connectionId 5) [release 99 10; zeroMessage])
       = length [release 99 10; zeroMessage]
    /\ Forall (fun m => connectionId m = 5)
              (map (set_connectionId 5) [release 99 10; zeroMessage])
    /\ Forall (fun m => connectionId m <> 5) (pre ++ post).
Proof.
  apply (getBufferStatusChanges_fifo_tagged zeroMessage Fmq.items
           [(1, {| Fmq.capacity := 4; Fmq.items := [release 1 8];
                   Fmq.valid := true |})]
           [] 5 (Fmq.fmq_new 4)).
  - reflexivity.
  - reflexivity.
  - vm_compute. intros [Heq | []]. discriminate Heq.
Defined.

(** An acknowledgement into one free slot is written and sets the flag. *)
Lemma postBufferInvalidateAck_flag_witness :
  BufferStatusChannel.postBufferInvalidateAck
    zeroMessage (sampleChannel 1) 1 77 false
  = Done (BufferStatusChannel.with_queue (sampleChannel 1)
            {| Fmq.capacity := 1;
               Fmq.items := [BufferStatusChannel.ackMessage zeroMessage 1 77];
               Fmq.valid := true |},
          true).
Proof.
  exact (proj1 (proj2 (proj2 (proj1 (proj2 (proj2
           (postBufferInvalidateAck_flag
              zeroMessage (sampleChannel 1) 1 77 false)))
           (Fmq.fmq_new 1) eq_refl eq_refl eq_refl))
           {| Fmq.capacity := 1;
              Fmq.items := [BufferStatusChannel.ackMessage zeroMessage 1 77];
              Fmq.valid := true |}
           Nat.lt_0_1 eq_refl)).
Defined.

(** A listener attached behind a backlog of two invalidations. *)
Lemma new_listener_discards_backlog_witness :
  exists q',
    BufferInvalidationListener.mBufferInvalidationQueue
      (BufferInvalidationListener.new
         (backlogQueue
            [ {| messageId := 1; fromBufferId := 0; toBufferId := 8 |};
              {| messageId := 2; fromBufferId := 8; toBufferId := 16 |} ]))
    = Some q'
    /\ Fmq.items q' = []
    /\ BufferInvalidationListener.getInvalidations
         (BufferInvalidationListener.new
            (backlogQueue
               [ {| messageId := 1; fromBufferId := 0; toBufferId := 8 |};
                 {| messageId := 2; fromBufferId := 8; toBufferId := 16 |} ]))
         []
       = Done (BufferInvalidationListener.new
                 (backlogQueue
                    [ {| messageId := 1; fromBufferId := 0; toBufferId := 8 |};
                      {| messageId := 2; fromBufferId := 8; toBufferId := 16 |} ]),
               []).
Proof.
  apply (new_listener_discards_backlog Fmq.items
           (backlogQueue
              [ {| messageId := 1; fromBufferId := 0; toBufferId := 8 |};
                {| messageId := 2; fromBufferId := 8; toBufferId := 16 |} ])).
  - reflexivity.
  - unfold kNumElementsInQueue. cbn [backlogQueue Fmq.items attachQueue Fmq.queue length]. lia.
Defined.

(** C5.  A listener whose attachment failed reports itself invalid, and
    [getInvalidations] on it has no defined behaviour: it does not return
    with an empty sequence. *)
Theorem getInvalidations_invalid_listener_undefined :
  BufferInvalidationListener.isValid
    (BufferInvalidationListener.new brokenDescriptor) = false
  /\ BufferInvalidationListener.getInvalidations
       (BufferInvalidationListener.new brokenDescriptor) []
     = Undefined
  /\ BufferInvalidationListener.getInvalidations
       (BufferInvalidationListener.new brokenDescriptor) []
     <> Done (BufferInvalidationListener.new brokenDescriptor, []).
Proof.
  destruct (@getInvalidations_invalid _ _ Fmq.queue brokenDescriptor []
              eq_refl)
    as [Hinvalid Hundefined].
  rewrite Hundefined. split; [assumption |]. split; [reflexivity | discriminate].
Qed.
End Instances.

(** * Further properties *)

(** ** Wrap-around comparisons *)

Section WrapAroundOrder.
Local Open Scope Z_scope.

Lemma sub32_wrap_shift (a b k : Z) :
  sub32 (wrap32 (a + k)) (wrap32 (b + k)) = sub32 a b.
Proof.
  unfold sub32, wrap32.
  rewrite Zminus_mod_idemp_l, Zminus_mod_idemp_r. f_equal. lia.
Qed.

Lemma sub32_zero_iff (a b : Z) :
  is_uint32 a -> is_uint32 b -> (sub32 a b = 0 <-> a = b).
Proof.
  intros Ha Hb. split.
  - intros Hz. destruct (Z.eq_dec a b) as [| Hne]; [assumption |].
    pose proof (sub32_opposite a b Ha Hb Hne) as Hsum.
    pose proof (sub32_range b a) as Hr. lia.
  - intros ->. unfold sub32, wrap32. rewrite Z.sub_diag. reflexivity.
Qed.

Lemma wrap32_is_uint32 (z : Z) : is_uint32 (wrap32 z).
Proof. unfold is_uint32, wrap32. apply Z.mod_pos_bound. reflexivity. Qed.

(** An identifier advanced by [n] steps, wrapping at the top of the 32-bit
    space, is later than the one it started from exactly when
    [0 < n < 2^31]. *)
Theorem isMessageLater_after_increment (prev n : Z) :
  is_uint32 prev -> 0 <= n < 2 ^ 32 ->
  isMessageLater (wrap32 (prev + n)) prev = (0 <? n) && (n <? 2 ^ 31).
Proof.
  intros Hprev Hn.
  assert (Hdist : sub32 (wrap32 (prev + n)) prev = n).
  { unfold sub32, wrap32. rewrite Zminus_mod_idemp_l.
    replace (prev + n - prev) with n by lia. apply Z.mod_small. assumption. }
  destruct (Z.eq_dec n 0) as [-> | Hpos].
  - unfold isMessageLater. rewrite Z.add_0_r.
    unfold wrap32 at 1. rewrite Z.mod_small by exact Hprev.
    rewrite Z.eqb_refl. reflexivity.
  - assert (Hne : wrap32 (prev + n) <> prev).
    { intros Heq.
      apply (sub32_zero_iff _ _ (wrap32_is_uint32 _) Hprev) in Heq. lia. }
    rewrite (isMessageLater_half _ _ (wrap32_is_uint32 _) Hprev Hne), Hdist.
    destruct (Z.ltb_spec 0 n); [reflexivity | lia].
Qed.

(** Identifier 2^32 - 2 advanced by five steps wraps to 3, which is later. *)
Lemma isMessageLater_after_increment_witness :
  isMessageLater (wrap32 (4294967294 + 5)) 4294967294 = (0 <? 5) && (5 <? 2 ^ 31).
Proof.
  apply (isMessageLater_after_increment 4294967294 5);
    unfold is_uint32; vm_compute; intuition discriminate.
Defined.

(** Advancing both identifiers by the same amount, with wrap-around, does
    not change which of them is later. *)
Theorem isMessageLater_shift_invariant (a b k : Z) :
  is_uint32 a -> is_uint32 b ->
  isMessageLater (wrap32 (a + k)) (wrap32 (b + k)) = isMessageLater a b.
Proof.
  intros Ha Hb. unfold isMessageLater.
  rewrite !sub32_wrap_shift. f_equal. f_equal.
  pose proof (sub32_zero_iff a b Ha Hb) as Hab.
  pose proof (sub32_zero_iff _ _ (wrap32_is_uint32 (a + k))
                (wrap32_is_uint32 (b + k))) as Hshift.
  rewrite sub32_wrap_shift in Hshift.
  destruct (Z.eqb_spec (wrap32 (a + k)) (wrap32 (b + k)));
    destruct (Z.eqb_spec a b); tauto.
Qed.

Lemma isMessageLater_shift_invariant_witness :
  isMessageLater (wrap32 (4294967290 + 10)) (wrap32 (4294967280 + 10))
  = isMessageLater 4294967290 4294967280.
Proof.
  apply (isMessageLater_shift_invariant 4294967290 4294967280 10);
    unfold is_uint32; vm_compute; intuition discriminate.
Defined.

(** No identifier is later than itself, and two identifiers are never
    each later than the other, the antipodal pair included. *)
Theorem isMessageLater_strict (a b : Z) :
  isMessageLater a a = false
  /\ (isMessageLater a b = true -> isMessageLater b a = false).
Proof.
  split.
  - unfold isMessageLater. rewrite Z.eqb_refl. reflexivity.
  - intros [_ Hlt]%isMessageLater_spec.
    destruct (isMessageLater b a) eqn:Hba; [| reflexivity].
    apply isMessageLater_spec in Hba. lia.
Qed.

(** The identifiers 0 and 2^31 are half of the space apart. *)
Lemma isMessageLater_antipodal_witness :
  isMessageLater 0 2147483648 = false /\ isMessageLater 2147483648 0 = false.
Proof.
  apply (isMessageLater_antipodal 0 2147483648);
    unfold is_uint32; vm_compute; intuition discriminate.
Defined.

(** For distinct ends, membership in [[from, to)] compares two wrapping
    distances: the offset of the identifier from [from] against the length
    of the range. *)
Theorem isBufferInRange_distance (from to id : Z) :
  is_uint32 from -> is_uint32 to -> is_uint32 id -> from <> to ->
  isBufferInRange from to id = (sub32 id from <? sub32 to from).
Proof.
  unfold is_uint32, isBufferInRange, sub32, wrap32.
  change (2 ^ 32) with 4294967296. intros Hf Ht Hi Hne.
  assert (Hwrap : forall x y, 0 <= x < 4294967296 -> 0 <= y < 4294967296 ->
            (x - y) mod 4294967296
            = if x <? y then x - y + 4294967296 else x - y).
  { intros x y Hx Hy. destruct (Z.ltb_spec x y).
    - symmetry. apply (Z.mod_unique (x - y) 4294967296 (-1)); lia.
    - apply Z.mod_small. lia. }
  rewrite (Hwrap id from Hi Hf), (Hwrap to from Ht Hf).
  destruct (Z.ltb_spec from to); destruct (Z.ltb_spec to from);
    destruct (Z.ltb_spec id from); destruct (Z.leb_spec from id);
    destruct (Z.ltb_spec id to); cbn; try lia;
    match goal with
    | |- _ = (?x <? ?y) => destruct (Z.ltb_spec x y); lia || reflexivity
    end.
Qed.

Lemma isBufferInRange_distance_witness :
  isBufferInRange 4294967290 10 3 = (sub32 3 4294967290 <? sub32 10 4294967290).
Proof.
  apply (isBufferInRange_distance 4294967290 10 3);
    unfold is_uint32; vm_compute; intuition discriminate.
Defined.

(** For distinct ends the ranges [[from, to)] and [[to, from)] split the
    identifiers between them: each identifier lies in exactly one. *)
Theorem isBufferInRange_complement (from to id : Z) :
  from <> to ->
  isBufferInRange to from id = negb (isBufferInRange from to id).
Proof.
  intros Hne. unfold isBufferInRange.
  destruct (Z.ltb_spec from to); destruct (Z.ltb_spec to from); try lia;
    destruct (Z.leb_spec from id); destruct (Z.ltb_spec id to);
    destruct (Z.leb_spec to id); destruct (Z.ltb_spec id from);
    cbn; lia || reflexivity.
Qed.

Lemma isBufferInRange_complement_witness :
  isBufferInRange 10 250 255 = negb (isBufferInRange 250 10 255).
Proof. apply (isBufferInRange_complement 250 10 255). discriminate. Defined.
End WrapAroundOrder.

(** ** The registry of the observer *)

Section RegistryLifecycle.
Context {Q D : Type} `{MessageQueue BufferStatusMessage Q D}.
Local Open Scope Z_scope.

Lemma find_none_keys {V : Type} (k : ConnectionId) (m : StdMap.t V) :
  StdMap.find k m = None <-> ~ In k (StdMap.keys m).
Proof.
  unfold StdMap.keys. induction m as [| [k' v] m IH]; cbn; [tauto |].
  destruct (Z.eqb_spec k' k) as [-> | Hne].
  - split; [discriminate | intros Hn; exfalso; apply Hn; left; reflexivity].
  - rewrite IH. intuition congruence.
Qed.

Lemma erase_absent {V : Type} (k : ConnectionId) (m : StdMap.t V) :
  StdMap.find k m = None -> StdMap.erase k m = m.
Proof.
  unfold StdMap.erase. induction m as [| [k' v] m IH]; cbn; [reflexivity |].
  destruct (Z.eqb_spec k' k); [discriminate |]. cbn.
  intros Hfind. rewrite (IH Hfind). reflexivity.
Qed.

Lemma erase_insert_fresh {V : Type} (k : ConnectionId) (v : V) (m : StdMap.t V) :
  StdMap.find k m = None -> StdMap.erase k (fst (StdMap.insert k v m)) = m.
Proof.
  induction m as [| [k' v'] m IH]; cbn.
  - intros _. rewrite Z.eqb_refl. reflexivity.
  - destruct (Z.eqb_spec k' k) as [| Hne]; [discriminate |]. intros Hfind.
    destruct (Z.ltb_spec k k').
    + cbn. rewrite Z.eqb_refl. cbn.
      destruct (Z.eqb_spec k' k); [contradiction |]. cbn.
      f_equal. apply (erase_absent k m Hfind).
    + destruct (Z.eqb_spec k k'); [congruence |].
      specialize (IH Hfind).
      destruct (StdMap.insert k v m) as [r fresh]. cbn in *.
      destruct (Z.eqb_spec k' k); [contradiction |]. cbn.
      f_equal. exact IH.
Qed.

Lemma keys_insert_in {V : Type} (k : ConnectionId) (v : V) (m : StdMap.t V) :
  forall x, In x (StdMap.keys (fst (StdMap.insert k v m))) ->
            x = k \/ In x (StdMap.keys m).
Proof.
  induction m as [| [k' v'] m IH]; cbn; intros x.
  - intuition congruence.
  - destruct (Z.ltb_spec k k'); [cbn; intuition congruence |].
    destruct (Z.eqb_spec k k'); [cbn; tauto |].
    destruct (StdMap.insert k v m) as [r fresh]. cbn in *.
    intros [-> | Hin]; [tauto |]. destruct (IH x Hin); tauto.
Qed.

Lemma insert_sorted {V : Type} (k : ConnectionId) (v : V) (m : StdMap.t V) :
  StronglySorted Z.lt (StdMap.keys m) ->
  StronglySorted Z.lt (StdMap.keys (fst (StdMap.insert k v m))).
Proof.
  induction m as [| [k' v'] m IH]; cbn; intros Hs.
  - repeat constructor.
  - apply StronglySorted_inv in Hs. destruct Hs as [Hs Hall].
    destruct (Z.ltb_spec k k') as [Hlt | Hge].
    + cbn. constructor.
      * constructor; assumption.
      * constructor; [assumption |].
        eapply Forall_impl; [| exact Hall]. cbn. intros; lia.
    + destruct (Z.eqb_spec k k') as [| Hne].
      * cbn. constructor; assumption.
      * pose proof (keys_insert_in k v m) as Hin. specialize (IH Hs).
        destruct (StdMap.insert k v m) as [r fresh]. cbn in *.
        constructor; [assumption |].
        apply Forall_forall. intros x Hx.
        destruct (Hin x Hx) as [-> | Hold]; [lia |].
        rewrite Forall_forall in Hall. apply Hall. assumption.
Qed.

Lemma erase_sorted {V : Type} (k : ConnectionId) (m : StdMap.t V) :
  StronglySorted Z.lt (StdMap.keys m) ->
  StronglySorted Z.lt (StdMap.keys (StdMap.erase k m)).
Proof.
  unfold StdMap.erase, StdMap.keys.
  induction m as [| [k' v'] m IH]; cbn; intros Hs; [constructor |].
  apply StronglySorted_inv in Hs. destruct Hs as [Hs Hall].
  destruct (Z.eqb_spec k' k); cbn; [apply IH; assumption |].
  constructor; [apply IH; assumption |].
  apply Forall_forall. intros x (e & <- & He)%in_map_iff.
  apply filter_In in He. rewrite Forall_forall in Hall. apply Hall.
  apply in_map. tauto.
Qed.

(** Closing a connection right after it was opened gives back the registry
    as it was before. *)
Theorem open_then_close_restores
    (queues : StdMap.t Q) (id : ConnectionId) (desc : D) :
  StdMap.find id queues = None ->
  isValid (newQueue kNumElementsInQueue) = true ->
  exists queues',
    BufferStatusObserver.open queues id desc
    = (OK, queues', dupeDesc (newQueue kNumElementsInQueue))
    /\ BufferStatusObserver.close queues' id = (OK, queues).
Proof.
  intros Hfind Hvalid.
  unfold BufferStatusObserver.open, BufferStatusObserver.close.
  rewrite Hfind, Hvalid. cbn [negb].
  pose proof (erase_insert_fresh id (newQueue kNumElementsInQueue) queues Hfind)
    as Hback.
  destruct (find_insert_fresh id (newQueue kNumElementsInQueue) queues Hfind)
    as (queues' & Hins & Hid & _).
  rewrite Hins in *. cbn [fst negb] in Hback |- *. exists queues'.
  rewrite Hid, Hback. split; reflexivity.
Qed.

(** Once [open] of an identifier has returned anything but [NO_MEMORY], a
    further [open] of it is rejected with [CRITICAL_ERROR]; and after a
    [close] of an identifier, whatever it returned, a further [close] of it
    is rejected with [CRITICAL_ERROR].  The rejected call changes nothing. *)
Theorem reopen_and_reclose_rejected
    (queues : StdMap.t Q) (id : ConnectionId) (desc desc2 : D) :
  (fst (fst (BufferStatusObserver.open queues id desc)) <> NO_MEMORY ->
   BufferStatusObserver.open
     (snd (fst (BufferStatusObserver.open queues id desc))) id desc2
   = (CRITICAL_ERROR,
      snd (fst (BufferStatusObserver.open queues id desc)), desc2))
  /\ BufferStatusObserver.close
       (snd (BufferStatusObserver.close queues id)) id
     = (CRITICAL_ERROR, snd (BufferStatusObserver.close queues id)).
Proof.
  split.
  - unfold BufferStatusObserver.open at 1 3 4.
    destruct (StdMap.find id queues) as [q |] eqn:Hfind.
    + intros _. cbn. unfold BufferStatusObserver.open. rewrite Hfind.
      reflexivity.
    + destruct (find_insert_fresh id (newQueue kNumElementsInQueue) queues Hfind)
        as (queues' & Hins & Hid & _).
      rewrite Hins.
      destruct (isValid (newQueue kNumElementsInQueue)); cbn;
        [| intros Hno; now contradiction Hno].
      intros _. unfold BufferStatusObserver.open. rewrite Hid. reflexivity.
  - unfold BufferStatusObserver.close at 2 3.
    destruct (StdMap.find id queues) as [q |] eqn:Hfind; cbn.
    + unfold BufferStatusObserver.close. rewrite find_erase_same. reflexivity.
    + unfold BufferStatusObserver.close. rewrite Hfind. reflexivity.
Qed.

(** The registry keeps its keys in strictly ascending order, hence without
    repetition, through every [open] and [close]. *)
Theorem registry_keys_stay_sorted
    (queues : StdMap.t Q) (id : ConnectionId) (desc : D) :
  StronglySorted Z.lt (StdMap.keys queues) ->
  StronglySorted Z.lt
    (StdMap.keys (snd (fst (BufferStatusObserver.open queues id desc))))
  /\ StronglySorted Z.lt
       (StdMap.keys (snd (BufferStatusObserver.close queues id)))
  /\ NoDup (StdMap.keys queues).
Proof.
  intros Hs. split; [| split].
  - unfold BufferStatusObserver.open.
    destruct (StdMap.find id queues); [exact Hs |].
    destruct (isValid (newQueue kNumElementsInQueue)); cbn [negb];
      [| exact Hs].
    pose proof (insert_sorted id (newQueue kNumElementsInQueue) queues Hs) as Hi.
    destruct (StdMap.insert id (newQueue kNumElementsInQueue) queues)
      as [queues' []]; exact Hi.
  - unfold BufferStatusObserver.close.
    destruct (StdMap.find id queues); [apply erase_sorted |]; exact Hs.
  - clear -Hs. induction Hs as [| k l Hs IH Hall]; constructor; [| exact IH].
    intros Hin. rewrite Forall_forall in Hall. specialize (Hall k Hin). lia.
Qed.
End RegistryLifecycle.

(** ** Draining the status queues *)

Section Drain.
Context {Q D : Type} `{MessageQueue BufferStatusMessage Q D}.
Variable declared : BufferStatusMessage.

Lemma drainQueue_extends (id : ConnectionId) (n : nat) :
  forall (q : Q) (message : BufferStatusMessage)
         (out : list BufferStatusMessage),
  exists (complete : bool) (q' : Q) (appended : list BufferStatusMessage),
    BufferStatusObserver.drainQueue n id q message out
    = (complete, q', out ++ appended)
    /\ Forall (fun m => connectionId m = id) appended
    /\ length appended <= n.
Proof.
  induction n as [| n IH]; intros q message out; cbn.
  - exists true, q, []. rewrite app_nil_r. repeat split; constructor.
  - destruct (read q 1) as [[records |] q1].
    + destruct (IH q1 (set_connectionId id (hd message records))
                  (out ++ [set_connectionId id (hd message records)]))
        as (c & q' & app & -> & Htag & Hlen).
      exists c, q', (set_connectionId id (hd message records) :: app).
      rewrite <- app_assoc. cbn. split; [reflexivity |].
      split; [constructor; [reflexivity | assumption] | lia].
    + exists false, q1, []. rewrite app_nil_r. cbn.
      split; [reflexivity |]. split; [constructor | lia].
Qed.

(** Whatever the queues do, failing reads included, a drain returns with
    the same identifiers registered in the same order, keeps the messages
    it was given and appends behind them only messages tagged with a
    registered identifier. *)
Theorem getBufferStatusChanges_keeps_registry (queues : StdMap.t Q) :
  forall out : list BufferStatusMessage,
  exists (queues' : StdMap.t Q) (appended : list BufferStatusMessage),
    BufferStatusObserver.getBufferStatusChanges declared queues out
    = (queues', out ++ appended)
    /\ StdMap.keys queues' = StdMap.keys queues
    /\ Forall (fun m => In (connectionId m) (StdMap.keys queues)) appended.
Proof.
  unfold StdMap.keys.
  induction queues as [| [id q] rest IH]; intros out; cbn.
  - exists [], []. rewrite app_nil_r. repeat split. constructor.
  - destruct (drainQueue_extends id (availableToRead q) q declared out)
      as ([] & q' & app & -> & Htag & _).
    + destruct (IH (out ++ app)) as (rest' & app' & -> & Hkeys & Htag').
      exists ((id, q') :: rest'), (app ++ app'). rewrite <- app_assoc. cbn.
      split; [reflexivity |]. split; [f_equal; exact Hkeys |].
      apply Forall_app. split.
      * eapply Forall_impl; [| exact Htag]. cbn. intros m ->. left. reflexivity.
      * eapply Forall_impl; [| exact Htag']. cbn. intros m Hm. right. exact Hm.
    + exists ((id, q') :: rest), app. cbn.
      split; [reflexivity |]. split; [reflexivity |].
      eapply Forall_impl; [| exact Htag]. cbn. intros m ->. left. reflexivity.
Qed.


Context (content : Q -> list BufferStatusMessage) `{!QueueContract content}.

Lemma getBufferStatusChanges_empty (queues : StdMap.t Q) :
  Forall (fun e => content (snd e) = []) queues ->
  forall out, BufferStatusObserver.getBufferStatusChanges declared queues out
              = (queues, out).
Proof.
  induction 1 as [| [id q] rest Hq _ IH]; intros out; cbn; [reflexivity |].
  cbn in Hq. rewrite availableToRead_content, Hq. cbn. rewrite IH. reflexivity.
Qed.

(** On queues that honour the contract a drain empties every registered
    queue: it appends each queue's records in their order, queue after
    queue in registry order, each record tagged with the identifier of its
    queue, and a second drain right after it changes nothing. *)
Theorem getBufferStatusChanges_drains_everything (queues : StdMap.t Q)
    (out : list BufferStatusMessage) :
  exists queues',
    BufferStatusObserver.getBufferStatusChanges declared queues out
    = (queues',
       out ++ flat_map (fun e => map (set_connectionId (fst e))
                                     (content (snd e))) queues)
    /\ StdMap.keys queues' = StdMap.keys queues
    /\ forall out2,
       BufferStatusObserver.getBufferStatusChanges declared queues' out2
       = (queues', out2).
Proof.
  destruct (getBufferStatusChanges_all declared content queues out)
    as (queues' & Hdrain & Hkeys & Hempty).
  exists queues'. split; [exact Hdrain |]. split; [exact Hkeys |].
  apply getBufferStatusChanges_empty. exact Hempty.
Qed.
End Drain.

(** ** The status channel through its life *)

Section ChannelLifecycle.
Context {Q D : Type} `{MessageQueue BufferStatusMessage Q D}.
Variable declared : BufferStatusMessage.

Local Abbreviation release := (BufferStatusChannel.releaseMessage declared).
Local Abbreviation with_queue := BufferStatusChannel.with_queue.
Local Abbreviation mValid := BufferStatusChannel.mValid.
Local Abbreviation mBufferStatusQueue := BufferStatusChannel.mBufferStatusQueue.
Local Abbreviation well_formed := BufferStatusChannel.well_formed.

Lemma with_queue_well_formed (ch : BufferStatusChannel.t Q) (q : Q) :
  well_formed (with_queue ch q) /\ mValid (with_queue ch q) = mValid ch.
Proof. split; [intros _; discriminate | reflexivity]. Qed.

Lemma firstn_skipn_conserve (k : nat) (pending posted : list BufferId) :
  (posted ++ firstn k pending) ++ skipn k pending = posted ++ pending.
Proof. rewrite <- app_assoc, firstn_skipn. reflexivity. Qed.

(** On a channel as its constructor leaves it, whatever the queue does:
    every method returns, the channel it leaves behind is again such a
    channel with the same validity, and the two methods that move entries
    neither lose nor duplicate nor reorder one: [posted] followed by
    [pending] reads the same before and after the call. *)
Theorem channel_methods_keep_channel
    (ch : BufferStatusChannel.t Q) (cid : ConnectionId)
    (pending posted : list BufferId) :
  well_formed ch ->
  (exists ch' pending' posted',
     BufferStatusChannel.postBufferRelease declared ch cid pending posted
     = Done (ch', pending', posted')
     /\ well_formed ch' /\ mValid ch' = mValid ch
     /\ posted' ++ pending' = posted ++ pending)
  /\ (forall tid bid st target,
      exists r ch' pending' posted',
        BufferStatusChannel.postBufferStatusMessage
          declared ch tid bid st cid target pending posted
        = Done (r, ch', pending', posted')
        /\ well_formed ch' /\ mValid ch' = mValid ch
        /\ posted' ++ pending' = posted ++ pending)
  /\ (forall invalidateId invalidated,
      exists ch' invalidated',
        BufferStatusChannel.postBufferInvalidateAck
          declared ch cid invalidateId invalidated
        = Done (ch', invalidated')
        /\ well_formed ch' /\ mValid ch' = mValid ch)
  /\ (exists b, BufferStatusChannel.needsSync ch = Done b).
Proof.
  intros Hwf. destruct ch as [v oq].
  unfold BufferStatusChannel.well_formed in Hwf. cbn in Hwf.
  destruct v.
  2: { split; [| split; [| split]].
       - eexists _, _, _. cbn. split; [reflexivity |].
         split; [intros Hv; discriminate Hv |]. split; reflexivity.
       - intros tid bid st target. eexists _, _, _, _. cbn.
         split; [reflexivity |].
         split; [intros Hv; discriminate Hv |]. split; reflexivity.
       - intros invalidateId invalidated. eexists _, _. cbn.
         split; [reflexivity |].
         split; [intros Hv; discriminate Hv | reflexivity].
       - exists false. reflexivity. }
  destruct oq as [q |]; [| exfalso; now apply Hwf].
  set (ch := {| BufferStatusChannel.mValid := true;
                BufferStatusChannel.mBufferStatusQueue := Some q |}).
  split; [| split; [| split]].
  - unfold BufferStatusChannel.postBufferRelease.
    cbn [ch BufferStatusChannel.mValid BufferStatusChannel.mBufferStatusQueue
         andb deref bind].
    destruct (0 <? length pending).
    + rewrite postBufferRelease_loop_eq.
      destruct (release_loop_fifo declared cid
                  (Nat.min (availableToWrite q) (length pending))
                  q pending posted)
        as (k & fl & q' & qk & _ & -> & _); [lia |].
      cbn. eexists _, _, _. split; [reflexivity |].
      split; [apply with_queue_well_formed |].
      split; [reflexivity | apply firstn_skipn_conserve].
    + eexists _, _, _. split; [reflexivity |].
      split; [exact Hwf |]. split; reflexivity.
  - intros tid bid st target.
    unfold BufferStatusChannel.postBufferStatusMessage.
    cbn [ch BufferStatusChannel.mValid BufferStatusChannel.mBufferStatusQueue
         andb deref bind].
    destruct (length pending + 1 <=? availableToWrite q).
    + destruct (release_loop_fifo declared cid (length pending) q pending posted)
        as (k & fl & q' & qk & _ & -> & _); [lia |].
      cbn. destruct fl; cbn.
      * destruct (write q' _) as [[] q2]; cbn; eexists _, _, _, _;
          (split; [reflexivity |]);
          (split; [apply with_queue_well_formed |]);
          (split; [reflexivity | apply firstn_skipn_conserve]).
      * eexists _, _, _, _. split; [reflexivity |].
        split; [apply with_queue_well_formed |].
        split; [reflexivity | apply firstn_skipn_conserve].
    + eexists _, _, _, _. split; [reflexivity |].
      split; [exact Hwf |]. split; reflexivity.
  - intros invalidateId invalidated.
    unfold BufferStatusChannel.postBufferInvalidateAck.
    cbn [ch BufferStatusChannel.mValid BufferStatusChannel.mBufferStatusQueue
         andb deref bind].
    destruct (negb invalidated); cbn [deref bind].
    + destruct (0 <? availableToWrite q).
      * destruct (write q _) as [[] q']; cbn; eexists _, _;
          (split; [reflexivity |]); apply with_queue_well_formed.
      * eexists _, _. split; [reflexivity |]. split; [exact Hwf | reflexivity].
    + eexists _, _. split; [reflexivity |]. split; [exact Hwf | reflexivity].
  - eexists. reflexivity.
Qed.

(** A channel whose attachment failed is inert: it reports itself invalid,
    never needs a sync, and its three posting methods return at once with
    their arguments as they were and, for the status message, [false]. *)
Theorem invalid_channel_is_inert (fmqDesc : D) (cid : ConnectionId)
    (pending posted : list BufferId) :
  isValid (attachQueue fmqDesc) = false ->
  BufferStatusChannel.isValid (BufferStatusChannel.new fmqDesc) = false
  /\ BufferStatusChannel.needsSync (BufferStatusChannel.new fmqDesc)
     = Done false
  /\ BufferStatusChannel.postBufferRelease
       declared (BufferStatusChannel.new fmqDesc) cid pending posted
     = Done (BufferStatusChannel.new fmqDesc, pending, posted)
  /\ (forall invalidateId invalidated,
      BufferStatusChannel.postBufferInvalidateAck
        declared (BufferStatusChannel.new fmqDesc) cid invalidateId invalidated
      = Done (BufferStatusChannel.new fmqDesc, invalidated))
  /\ (forall tid bid st target,
      BufferStatusChannel.postBufferStatusMessage
        declared (BufferStatusChannel.new fmqDesc)
        tid bid st cid target pending posted
      = Done (false, BufferStatusChannel.new fmqDesc, pending, posted)).
Proof.
  intros Hinvalid. unfold BufferStatusChannel.new. rewrite Hinvalid.
  repeat split.
Qed.
End ChannelLifecycle.

(** ** The status channel on a queue that honours the contract *)

Section ChannelOnContract.
Context {Q D : Type} `{MessageQueue BufferStatusMessage Q D}.
Variable declared : BufferStatusMessage.
Context (content : Q -> list BufferStatusMessage) `{!QueueContract content}.

Local Abbreviation release := (BufferStatusChannel.releaseMessage declared).
Local Abbreviation with_queue := BufferStatusChannel.with_queue.
Local Abbreviation mValid := BufferStatusChannel.mValid.
Local Abbreviation mBufferStatusQueue := BufferStatusChannel.mBufferStatusQueue.

Lemma postBufferRelease_room
    (ch : BufferStatusChannel.t Q) (q : Q) (cid : ConnectionId)
    (pending posted : list BufferId) :
  mValid ch = true ->
  mBufferStatusQueue ch = Some q ->
  exists q',
    BufferStatusChannel.postBufferRelease declared ch cid pending posted
    = Done (with_queue ch q',
            skipn (Nat.min (availableToWrite q) (length pending)) pending,
            posted ++ firstn (Nat.min (availableToWrite q) (length pending))
                             pending)
    /\ content q'
       = content q
         ++ map (release cid)
                (firstn (Nat.min (availableToWrite q) (length pending)) pending)
    /\ availableToWrite q'
       = availableToWrite q - Nat.min (availableToWrite q) (length pending).
Proof.
  intros Hv Hq.
  destruct (write_all_room content
              (map (release cid)
                   (firstn (Nat.min (availableToWrite q) (length pending))
                           pending)) q)
    as (q' & Hall & Hc & Ha).
  { rewrite length_map, length_firstn. lia. }
  rewrite length_map, length_firstn in Ha.
  exists q'. split; [| split; [exact Hc | lia]].
  unfold BufferStatusChannel.postBufferRelease. rewrite Hv, Hq.
  cbn [andb deref bind].
  destruct (0 <? length pending) eqn:Hp.
  - rewrite postBufferRelease_loop_eq.
    rewrite (release_loop_complete declared cid _ q q' pending posted);
      [reflexivity | lia | exact Hall].
  - destruct pending as [| id rest]; [| discriminate Hp].
    rewrite Nat.min_0_r in *. cbn in Hall |- *. injection Hall as <-.
    rewrite app_nil_r, (with_queue_same ch q Hq). reflexivity.
Qed.

(** [postBufferRelease] on a valid channel moves as many entries as fit,
    [n = min (availableToWrite q) (length pending)]: it queues their
    release messages behind what the queue held, in the order of
    [pending], takes [n] slots, and leaves the other entries pending; with
    room for all of them nothing stays pending. *)
Theorem postBufferRelease_flushes_what_fits
    (ch : BufferStatusChannel.t Q) (q : Q) (cid : ConnectionId)
    (pending posted : list BufferId) :
  mValid ch = true ->
  mBufferStatusQueue ch = Some q ->
  exists q',
    BufferStatusChannel.postBufferRelease declared ch cid pending posted
    = Done (with_queue ch q',
            skipn (Nat.min (availableToWrite q) (length pending)) pending,
            posted ++ firstn (Nat.min (availableToWrite q) (length pending))
                             pending)
    /\ content q'
       = content q
         ++ map (release cid)
                (firstn (Nat.min (availableToWrite q) (length pending)) pending)
    /\ availableToWrite q'
       = availableToWrite q - Nat.min (availableToWrite q) (length pending)
    /\ (length pending <= availableToWrite q ->
        skipn (Nat.min (availableToWrite q) (length pending)) pending = []
        /\ firstn (Nat.min (availableToWrite q) (length pending)) pending
           = pending).
Proof.
  intros Hv Hq.
  destruct (postBufferRelease_room ch q cid pending posted Hv Hq)
    as (q' & Hpost & Hc & Ha).
  exists q'. repeat (split; [assumption |]).
  intros Hfits. rewrite Nat.min_r by exact Hfits.
  split; [apply skipn_all | apply firstn_all].
Qed.

Lemma postBufferStatusMessage_room
    (ch : BufferStatusChannel.t Q) (q : Q)
    (tid : TransactionId) (bid : BufferId) (st : BufferStatus)
    (cid target : ConnectionId) (pending posted : list BufferId) :
  mValid ch = true ->
  mBufferStatusQueue ch = Some q ->
  length pending + 1 <= availableToWrite q ->
  exists q',
    BufferStatusChannel.postBufferStatusMessage
      declared ch tid bid st cid target pending posted
    = Done (true, with_queue ch q', [], posted ++ pending)
    /\ content q'
       = content q ++ map (release cid) pending
         ++ [BufferStatusChannel.statusMessage tid bid st cid target]
    /\ availableToWrite q' = availableToWrite q - (length pending + 1).
Proof.
  intros Hv Hq Hroom. unfold BufferStatusChannel.postBufferStatusMessage.
  rewrite Hv, Hq. cbn [deref bind].
  destruct (write_all_room content
              (map (release cid) pending
               ++ [BufferStatusChannel.statusMessage tid bid st cid target]) q)
    as (q' & Hall & Hc & Ha).
  { rewrite length_app, length_map. cbn. lia. }
  rewrite length_app, length_map in Ha. cbn [length] in Ha.
  exists q'. pose proof Hroom as Hleb. apply Nat.leb_le in Hleb. rewrite Hleb.
  rewrite write_all_app in Hall.
  destruct (write_all q (map (release cid) pending)) as [q1 |] eqn:Hrel;
    [| discriminate].
  rewrite (release_loop_complete declared cid (length pending) q q1 pending posted);
    [| lia | rewrite firstn_all; assumption].
  cbn in Hall |- *.
  destruct (write q1 _) as [[] q2]; [| discriminate].
  injection Hall as ->. cbn. rewrite firstn_all, skipn_all.
  split; [reflexivity |]. split; assumption.
Qed.

(** Posting never clears the need for a sync: when [needsSync] holds on a
    valid channel, it still holds on the channel that [postBufferRelease]
    or [postBufferStatusMessage] leaves behind. *)
Theorem needsSync_survives_posting
    (ch : BufferStatusChannel.t Q) (q : Q)
    (tid : TransactionId) (bid : BufferId) (st : BufferStatus)
    (cid target : ConnectionId) (pending posted : list BufferId) :
  mValid ch = true ->
  mBufferStatusQueue ch = Some q ->
  BufferStatusChannel.needsSync ch = Done true ->
  (exists ch' pending' posted',
     BufferStatusChannel.postBufferRelease declared ch cid pending posted
     = Done (ch', pending', posted')
     /\ BufferStatusChannel.needsSync ch' = Done true)
  /\ (exists r ch' pending' posted',
        BufferStatusChannel.postBufferStatusMessage
          declared ch tid bid st cid target pending posted
        = Done (r, ch', pending', posted')
        /\ BufferStatusChannel.needsSync ch' = Done true).
Proof.
  intros Hv Hq Hsync.
  assert (Hlow : (availableToWrite q + kMinElementsToSyncInQueue
                  <? kNumElementsInQueue) = true).
  { unfold BufferStatusChannel.needsSync in Hsync. rewrite Hv, Hq in Hsync.
    cbn [deref bind] in Hsync. injection Hsync as Hsync. exact Hsync. }
  apply Nat.ltb_lt in Hlow.
  assert (Hkeep : forall q', availableToWrite q' <= availableToWrite q ->
            BufferStatusChannel.needsSync (with_queue ch q') = Done true).
  { intros q' Hle. unfold BufferStatusChannel.needsSync.
    cbn [BufferStatusChannel.mValid BufferStatusChannel.mBufferStatusQueue
         BufferStatusChannel.with_queue].
    rewrite Hv. cbn [deref bind]. f_equal. apply Nat.ltb_lt. lia. }
  split.
  - destruct (postBufferRelease_room ch q cid pending posted Hv Hq)
      as (q' & -> & _ & Ha).
    eexists _, _, _. split; [reflexivity |]. apply Hkeep. lia.
  - destruct (Nat.le_gt_cases (length pending + 1) (availableToWrite q))
      as [Hroom | Hless].
    + destruct (postBufferStatusMessage_room ch q tid bid st cid target
                  pending posted Hv Hq Hroom) as (q' & -> & _ & Ha).
      eexists _, _, _, _. split; [reflexivity |]. apply Hkeep. lia.
    + unfold BufferStatusChannel.postBufferStatusMessage. rewrite Hv, Hq.
      cbn [deref bind]. apply Nat.leb_gt in Hless. rewrite Hless.
      eexists _, _, _, _. split; [reflexivity | exact Hsync].
Qed.

(** With a free slot, the first [postBufferInvalidateAck] queues the one
    acknowledgement behind what the queue held and sets the flag; called
    again with the flag it returned, the method leaves the queue alone, so
    the acknowledgement is queued once. *)
Theorem postBufferInvalidateAck_once
    (ch : BufferStatusChannel.t Q) (q : Q) (cid : ConnectionId)
    (invalidateId : uint32_t) :
  mValid ch = true ->
  mBufferStatusQueue ch = Some q ->
  0 < availableToWrite q ->
  exists q',
    BufferStatusChannel.postBufferInvalidateAck
      declared ch cid invalidateId false
    = Done (with_queue ch q', true)
    /\ content q'
       = content q
         ++ [BufferStatusChannel.ackMessage declared cid invalidateId]
    /\ BufferStatusChannel.postBufferInvalidateAck
         declared (with_queue ch q') cid invalidateId true
       = Done (with_queue ch q', true).
Proof.
  intros Hv Hq Hroom.
  destruct (write_room q (BufferStatusChannel.ackMessage declared cid invalidateId)
              Hroom) as (q' & Hw & Hc & _).
  exists q'. unfold BufferStatusChannel.postBufferInvalidateAck.
  rewrite Hv, Hq. cbn [andb negb deref bind].
  apply Nat.ltb_lt in Hroom. rewrite Hroom, Hw. cbn [negb].
  split; [reflexivity |]. split; [exact Hc |].
  cbn [BufferStatusChannel.mValid BufferStatusChannel.with_queue].
  rewrite Hv. reflexivity.
Qed.

(** From the writer to the reader: when a valid channel posts a status
    message into an empty queue with room for it and for the pending
    releases, and the observer holds that queue under the identifier
    [key], its drain appends the release messages in the order of
    [pending] and the status message behind them, every one tagged [key]. *)
Theorem posted_messages_reach_the_observer
    (ch : BufferStatusChannel.t Q) (q : Q) (key : ConnectionId)
    (tid : TransactionId) (bid : BufferId) (st : BufferStatus)
    (cid target : ConnectionId) (pending posted : list BufferId)
    (out : list BufferStatusMessage) :
  mValid ch = true ->
  mBufferStatusQueue ch = Some q ->
  content q = [] ->
  length pending + 1 <= availableToWrite q ->
  exists q',
    BufferStatusChannel.postBufferStatusMessage
      declared ch tid bid st cid target pending posted
    = Done (true, with_queue ch q', [], posted ++ pending)
    /\ snd (BufferStatusObserver.getBufferStatusChanges declared [(key, q')] out)
       = out
         ++ map (fun id => set_connectionId key (release cid id)) pending
         ++ [set_connectionId key
               (BufferStatusChannel.statusMessage tid bid st cid target)].
Proof.
  intros Hv Hq Hempty Hroom.
  destruct (postBufferStatusMessage_room ch q tid bid st cid target
              pending posted Hv Hq Hroom) as (q' & Hpost & Hc & _).
  exists q'. split; [exact Hpost |].
  destruct (getBufferStatusChanges_all declared content [(key, q')] out)
    as (queues' & -> & _).
  cbn. rewrite Hc, Hempty, app_nil_r. cbn.
  rewrite map_app, map_map. reflexivity.
Qed.
End ChannelOnContract.

(** ** The invalidation queue: listener and channel *)

Section Invalidation.
Context {Q D : Type} `{MessageQueue BufferInvalidationMessage Q D}.

Lemma getInvalidations_loop_extends (tries : nat) :
  forall (q : Q) (messages : list BufferInvalidationMessage),
  exists q' appended,
    BufferInvalidationListener.getInvalidations_loop tries q messages
    = (q', messages ++ appended).
Proof.
  induction tries as [| tries IH]; intros q messages;
    cbn [BufferInvalidationListener.getInvalidations_loop].
  - exists q, []. rewrite app_nil_r. reflexivity.
  - destruct (0 <? Nat.min (availableToRead q) kNumElementsInQueue).
    + destruct (read q _) as [[temp |] q1].
      * exists q1, temp. reflexivity.
      * apply IH.
    + exists q, []. rewrite app_nil_r. reflexivity.
Qed.

(** A listener whose attachment succeeded holds a queue, and whatever that
    queue does, failing reads included, [getInvalidations] on it returns,
    keeps the messages it was given in front of what it appends, and
    leaves a listener that is still valid. *)
Theorem getInvalidations_on_attached_listener (fmqDesc : D)
    (messages : list BufferInvalidationMessage) :
  isValid (attachQueue fmqDesc) = true ->
  BufferInvalidationListener.isValid
    (BufferInvalidationListener.new fmqDesc) = true
  /\ exists l' appended,
       BufferInvalidationListener.getInvalidations
         (BufferInvalidationListener.new fmqDesc) messages
       = Done (l', messages ++ appended)
       /\ BufferInvalidationListener.isValid l' = true
       /\ BufferInvalidationListener.mBufferInvalidationQueue l' <> None.
Proof.
  intros Hvalid.
  unfold BufferInvalidationListener.new. rewrite Hvalid. cbn [negb].
  split; [reflexivity |].
  unfold BufferInvalidationListener.getInvalidations.
  cbn [BufferInvalidationListener.mBufferInvalidationQueue
       BufferInvalidationListener.mValid deref bind].
  match goal with
  | |- context [BufferInvalidationListener.getInvalidations_loop 2 ?q0 _] =>
      destruct (getInvalidations_loop_extends 2 q0 messages)
        as (q' & appended & ->)
  end.
  eexists _, appended. split; [reflexivity |].
  split; [reflexivity | discriminate].
Qed.

(** When every read fails, [getInvalidations] tries twice and gives up:
    it reads once in each of its two passes, a pass reading only when the
    queue reports records, and returns the messages as they were given.
    The queue it leaves is the one the second failed read left, or the
    first when there was nothing to read in the second pass, or the queue
    untouched when there was nothing to read at all. *)
Theorem getInvalidations_failed_reads_append_nothing
    (l : BufferInvalidationListener.t Q) (q : Q)
    (messages : list BufferInvalidationMessage) :
  (forall q0 n, fst (read q0 n) = None) ->
  BufferInvalidationListener.mBufferInvalidationQueue l = Some q ->
  BufferInvalidationListener.getInvalidations l messages
  = Done
      ({| BufferInvalidationListener.mValid :=
            BufferInvalidationListener.mValid l;
          BufferInvalidationListener.mBufferInvalidationQueue :=
            Some
              (if 0 <? Nat.min (availableToRead q) kNumElementsInQueue
               then
                 if 0 <? Nat.min
                           (availableToRead
                              (snd (read q (Nat.min (availableToRead q)
                                                    kNumElementsInQueue))))
                           kNumElementsInQueue
                 then
                   snd (read
                          (snd (read q (Nat.min (availableToRead q)
                                                kNumElementsInQueue)))
                          (Nat.min
                             (availableToRead
                                (snd (read q (Nat.min (availableToRead q)
                                                      kNumElementsInQueue))))
                             kNumElementsInQueue))
                 else snd (read q (Nat.min (availableToRead q)
                                           kNumElementsInQueue))
               else q) |},
       messages).
Proof.
  intros Hfail Hq. unfold BufferInvalidationListener.getInvalidations.
  rewrite Hq.
  cbn [deref bind BufferInvalidationListener.getInvalidations_loop].
  destruct (0 <? Nat.min (availableToRead q) kNumElementsInQueue);
    [| reflexivity].
  pose proof (Hfail q (Nat.min (availableToRead q) kNumElementsInQueue))
    as Hfirst.
  destruct (read q (Nat.min (availableToRead q) kNumElementsInQueue))
    as [[temp |] q1]; cbn [fst snd] in *; [discriminate |].
  destruct (0 <? Nat.min (availableToRead q1) kNumElementsInQueue);
    [| reflexivity].
  pose proof (Hfail q1 (Nat.min (availableToRead q1) kNumElementsInQueue))
    as Hsecond.
  destruct (read q1 (Nat.min (availableToRead q1) kNumElementsInQueue))
    as [[temp |] q2]; cbn [fst snd] in *; [discriminate | reflexivity].
Qed.

Context (content : Q -> list BufferInvalidationMessage)
        `{!QueueContract content}.

Lemma firstn_min_length {A : Type} (k : nat) (l : list A) :
  firstn (Nat.min (length l) k) l = firstn k l
  /\ skipn (Nat.min (length l) k) l = skipn k l.
Proof.
  destruct (Nat.le_gt_cases (length l) k) as [Hle | Hgt].
  - rewrite Nat.min_l by exact Hle.
    rewrite firstn_all, skipn_all, (firstn_all2 l Hle), (skipn_all2 l Hle).
    split; reflexivity.
  - rewrite Nat.min_r by lia. split; reflexivity.
Qed.

Lemma kNumElementsInQueue_positive : 0 < kNumElementsInQueue.
Proof. unfold kNumElementsInQueue. lia. Qed.

(** One guarded bulk read: of a queue that honours the contract it takes
    the first [kNumElementsInQueue] records, or all when there are fewer;
    the guard is closed only on an empty queue. *)
Lemma bulk_read (q : Q) :
  ((0 <? Nat.min (availableToRead q) kNumElementsInQueue) = true ->
   exists q',
     read q (Nat.min (availableToRead q) kNumElementsInQueue)
     = (Some (firstn kNumElementsInQueue (content q)), q')
     /\ content q' = skipn kNumElementsInQueue (content q))
  /\ ((0 <? Nat.min (availableToRead q) kNumElementsInQueue) = false ->
      content q = []).
Proof.
  rewrite availableToRead_content.
  destruct (firstn_min_length kNumElementsInQueue (content q)) as [Hf Hs].
  split; intros Hsome.
  - destruct (read_available q (Nat.min (length (content q)) kNumElementsInQueue))
      as (q' & -> & Hc).
    { rewrite availableToRead_content. lia. }
    exists q'. rewrite Hf, <- Hs. split; [reflexivity | exact Hc].
  - apply Nat.ltb_ge in Hsome. pose proof kNumElementsInQueue_positive.
    apply length_zero_iff_nil. lia.
Qed.

(** [getInvalidations] on a listener whose queue honours the contract
    appends the queued records in their order, at most
    [kNumElementsInQueue] of them in one call, and leaves the others in
    the queue. *)
Theorem getInvalidations_takes_queued_records
    (l : BufferInvalidationListener.t Q) (q : Q)
    (messages : list BufferInvalidationMessage) :
  BufferInvalidationListener.mBufferInvalidationQueue l = Some q ->
  exists q',
    BufferInvalidationListener.getInvalidations l messages
    = Done ({| BufferInvalidationListener.mValid :=
                 BufferInvalidationListener.mValid l;
               BufferInvalidationListener.mBufferInvalidationQueue := Some q' |},
            messages ++ firstn kNumElementsInQueue (content q))
    /\ content q' = skipn kNumElementsInQueue (content q).
Proof.
  intros Hq. unfold BufferInvalidationListener.getInvalidations.
  rewrite Hq. cbn [deref bind BufferInvalidationListener.getInvalidations_loop].
  destruct (bulk_read q) as [Hsome Hnone].
  destruct (0 <? Nat.min (availableToRead q) kNumElementsInQueue).
  - destruct (Hsome eq_refl) as (q' & -> & Hc). exists q'.
    split; [reflexivity | exact Hc].
  - exists q. rewrite (Hnone eq_refl), firstn_nil, skipn_nil, app_nil_r.
    split; reflexivity.
Qed.

(** The constructor of a listener discards at most [kNumElementsInQueue]
    records of the backlog: what lies beyond stays in the queue. *)
Theorem new_listener_discards_up_to_capacity (fmqDesc : D) :
  isValid (attachQueue fmqDesc) = true ->
  exists q',
    BufferInvalidationListener.new fmqDesc
    = {| BufferInvalidationListener.mValid := true;
         BufferInvalidationListener.mBufferInvalidationQueue := Some q' |}
    /\ content q' = skipn kNumElementsInQueue (content (attachQueue fmqDesc)).
Proof.
  intros Hvalid. unfold BufferInvalidationListener.new.
  rewrite Hvalid. cbn [negb].
  destruct (bulk_read (attachQueue fmqDesc)) as [Hsome Hnone].
  destruct (0 <? Nat.min (availableToRead (attachQueue fmqDesc))
                         kNumElementsInQueue).
  - destruct (Hsome eq_refl) as (q' & -> & Hc). exists q'.
    split; [reflexivity | exact Hc].
  - exists (attachQueue fmqDesc). rewrite (Hnone eq_refl), skipn_nil.
    split; reflexivity.
Qed.

(** Invalidations posted one after the other into free room are queued in
    the order of the posts, each as the record of its three arguments, and
    the channel's validity is what it was. *)
Theorem postInvalidation_in_order (posts : list BufferInvalidationMessage) :
  forall ch : BufferInvalidationChannel.t Q,
  length posts
  <= availableToWrite (BufferInvalidationChannel.mBufferInvalidationQueue ch) ->
  content (BufferInvalidationChannel.mBufferInvalidationQueue
             (fold_left
                (fun c p =>
                   BufferInvalidationChannel.postInvalidation
                     c (messageId p) (fromBufferId p) (toBufferId p))
                posts ch))
  = content (BufferInvalidationChannel.mBufferInvalidationQueue ch) ++ posts
  /\ BufferInvalidationChannel.mValid
       (fold_left
          (fun c p =>
             BufferInvalidationChannel.postInvalidation
               c (messageId p) (fromBufferId p) (toBufferId p))
          posts ch)
     = BufferInvalidationChannel.mValid ch.
Proof.
  induction posts as [| p posts IH]; intros ch Hroom; cbn [fold_left length] in *.
  - rewrite app_nil_r. split; reflexivity.
  - destruct (write_room (BufferInvalidationChannel.mBufferInvalidationQueue ch) p)
      as (q1 & Hw & Hc & Ha); [lia |].
    destruct (IH (BufferInvalidationChannel.postInvalidation
                    ch (messageId p) (fromBufferId p) (toBufferId p)))
      as [Hcontent Hvalid].
    { unfold BufferInvalidationChannel.postInvalidation. cbn.
      destruct p. cbn. rewrite Hw. cbn. lia. }
    rewrite Hcontent, Hvalid.
    unfold BufferInvalidationChannel.postInvalidation. cbn.
    destruct p. cbn in *. rewrite Hw. cbn. rewrite Hc, <- app_assoc.
    split; reflexivity.
Qed.
End Invalidation.

(** ** Worked instances of the further properties *)

Section FurtherInstances.
Local Open Scope Z_scope.

Local Abbreviation release := (BufferStatusChannel.releaseMessage zeroMessage).
Local Abbreviation StatusFmq := (Fmq.t BufferStatusMessage).
Local Abbreviation StatusStuck := (Spurious.t BufferStatusMessage).

(** Connection 3 opened next to connection 7 and closed again. *)
Lemma open_then_close_restores_witness :
  exists queues',
    BufferStatusObserver.open
      [(7, Fmq.fmq_new (M := BufferStatusMessage) 4)] 3 (Fmq.fmq_new 0)
    = (OK, queues', dupeDesc (newQueue kNumElementsInQueue))
    /\ BufferStatusObserver.close queues' 3
       = (OK, [(7, Fmq.fmq_new (M := BufferStatusMessage) 4)]).
Proof.
  apply (open_then_close_restores
           [(7, Fmq.fmq_new (M := BufferStatusMessage) 4)] 3 (Fmq.fmq_new 0));
    reflexivity.
Defined.

(** Connection 5 opened between, or closed next to, connections 3 and 7. *)
Lemma registry_keys_stay_sorted_witness :
  StronglySorted Z.lt
    (StdMap.keys
       (snd (fst (BufferStatusObserver.open
                    [(3, Fmq.fmq_new (M := BufferStatusMessage) 4);
                     (7, Fmq.fmq_new 4)] 5 (Fmq.fmq_new 0)))))
  /\ StronglySorted Z.lt
       (StdMap.keys
          (snd (BufferStatusObserver.close
                  [(3, Fmq.fmq_new (M := BufferStatusMessage) 4);
                   (7, Fmq.fmq_new 4)] 5)))
  /\ NoDup (StdMap.keys [(3, Fmq.fmq_new (M := BufferStatusMessage) 4);
                         (7, Fmq.fmq_new 4)]).
Proof.
  apply (registry_keys_stay_sorted
           [(3, Fmq.fmq_new (M := BufferStatusMessage) 4); (7, Fmq.fmq_new 4)]
           5 (Fmq.fmq_new 0)).
  cbn. repeat constructor.
Defined.


(** Two connections with one and two queued records. *)
Lemma getBufferStatusChanges_drains_everything_witness :
  exists queues' : StdMap.t StatusFmq,
    BufferStatusObserver.getBufferStatusChanges zeroMessage
      [(1, {| Fmq.capacity := 4%nat; Fmq.items := [release 1 8];
              Fmq.valid := true |});
       (5, {| Fmq.capacity := 4%nat;
              Fmq.items := [release 99 10; zeroMessage];
              Fmq.valid := true |})] []
    = (queues',
       [] ++ flat_map (fun e => map (set_connectionId (fst e))
                                    (Fmq.items (snd e)))
               [(1, {| Fmq.capacity := 4%nat; Fmq.items := [release 1 8];
                       Fmq.valid := true |});
                (5, {| Fmq.capacity := 4%nat;
                       Fmq.items := [release 99 10; zeroMessage];
                       Fmq.valid := true |})])
    /\ StdMap.keys queues' = [1; 5]
    /\ forall out2,
       BufferStatusObserver.getBufferStatusChanges zeroMessage queues' out2
       = (queues', out2).
Proof.
  exact (getBufferStatusChanges_drains_everything zeroMessage Fmq.items
           [(1, {| Fmq.capacity := 4%nat; Fmq.items := [release 1 8];
                   Fmq.valid := true |});
            (5, {| Fmq.capacity := 4%nat;
                   Fmq.items := [release 99 10; zeroMessage];
                   Fmq.valid := true |})] []).
Defined.

(** A valid channel on a queue that rejects every write: nothing moves. *)
Lemma channel_methods_keep_channel_witness :
  exists ch' pending' posted',
    BufferStatusChannel.postBufferRelease zeroMessage
      (BufferStatusChannel.new (Spurious.Stuck (Fmq.fmq_new 4)))
      1 [10; 11] [9]
    = Done (ch', pending', posted')
    /\ BufferStatusChannel.well_formed ch'
    /\ BufferStatusChannel.mValid ch'
       = BufferStatusChannel.mValid
           (BufferStatusChannel.new
              (Spurious.Stuck (Fmq.fmq_new (M := BufferStatusMessage) 4)))
    /\ posted' ++ pending' = [9] ++ [10; 11].
Proof.
  exact (proj1 (channel_methods_keep_channel zeroMessage
                  (BufferStatusChannel.new (Spurious.Stuck (Fmq.fmq_new 4)))
                  1 [10; 11] [9]
                  (@new_well_formed _ _ Spurious.queue
                     (Spurious.Stuck (Fmq.fmq_new 4))))).
Defined.

(** A channel built on a descriptor that cannot be attached to. *)
Lemma invalid_channel_is_inert_witness :
  BufferStatusChannel.postBufferRelease zeroMessage
    (BufferStatusChannel.new
       {| Fmq.capacity := 4%nat; Fmq.items := @nil BufferStatusMessage;
          Fmq.valid := false |})
    1 [10; 11] [9]
  = Done (BufferStatusChannel.new
            {| Fmq.capacity := 4%nat; Fmq.items := @nil BufferStatusMessage;
               Fmq.valid := false |},
          [10; 11], [9]).
Proof.
  exact (proj1 (proj2 (proj2
           (invalid_channel_is_inert zeroMessage
              {| Fmq.capacity := 4%nat; Fmq.items := @nil BufferStatusMessage;
                 Fmq.valid := false |}
              1 [10; 11] [9] eq_refl)))).
Defined.

(** Three pending releases and two free slots. *)
Lemma postBufferRelease_flushes_what_fits_witness :
  BufferStatusChannel.postBufferRelease
    zeroMessage (sampleChannel 2) 1 [10; 11; 12] [9]
  = Done (BufferStatusChannel.with_queue (sampleChannel 2)
            {| Fmq.capacity := 2%nat;
               Fmq.items := [release 1 10; release 1 11];
               Fmq.valid := true |},
          [12], [9; 10; 11]).
Proof.
  destruct (postBufferRelease_flushes_what_fits zeroMessage Fmq.items
              (sampleChannel 2) (Fmq.fmq_new 2) 1 [10; 11; 12] [9]
              eq_refl eq_refl)
    as (q' & Hpost & Hc & _).
  destruct q' as [c items v]. cbn in Hc. subst items.
  rewrite Hpost. vm_compute in Hpost |- *.
  injection Hpost as -> ->. reflexivity.
Defined.

(** A channel with four free slots needs a sync, before and after posting. *)
Lemma needsSync_survives_posting_witness :
  (exists ch' pending' posted',
     BufferStatusChannel.postBufferRelease
       zeroMessage (sampleChannel 4) 1 [10; 11] [9]
     = Done (ch', pending', posted')
     /\ BufferStatusChannel.needsSync ch' = Done true)
  /\ (exists r ch' pending' posted',
        BufferStatusChannel.postBufferStatusMessage
          zeroMessage (sampleChannel 4) 7 42 USED 1 2 [10; 11] [9]
        = Done (r, ch', pending', posted')
        /\ BufferStatusChannel.needsSync ch' = Done true).
Proof.
  apply (needsSync_survives_posting zeroMessage Fmq.items
           (sampleChannel 4) (Fmq.fmq_new 4) 7 42 USED 1 2 [10; 11] [9]);
    vm_compute; reflexivity.
Defined.

(** An acknowledgement into one free slot, and the call repeated. *)
Lemma postBufferInvalidateAck_once_witness :
  exists q' : StatusFmq,
    BufferStatusChannel.postBufferInvalidateAck
      zeroMessage (sampleChannel 1) 1 77 false
    = Done (BufferStatusChannel.with_queue (sampleChannel 1) q', true)
    /\ Fmq.items q'
       = Fmq.items (Fmq.fmq_new 1)
         ++ [BufferStatusChannel.ackMessage zeroMessage 1 77]
    /\ BufferStatusChannel.postBufferInvalidateAck
         zeroMessage (BufferStatusChannel.with_queue (sampleChannel 1) q')
         1 77 true
       = Done (BufferStatusChannel.with_queue (sampleChannel 1) q', true).
Proof.
  apply (postBufferInvalidateAck_once zeroMessage Fmq.items
           (sampleChannel 1) (Fmq.fmq_new 1) 1 77);
    [reflexivity | reflexivity | vm_compute; lia].
Defined.

(** Two releases and a status message posted by connection 1 and drained
    by an observer that holds the queue under the identifier 5. *)
Lemma posted_messages_reach_the_observer_witness :
  exists q' : StatusFmq,
    BufferStatusChannel.postBufferStatusMessage
      zeroMessage (sampleChannel 3) 7 42 USED 1 2 [10; 11] [9]
    = Done (true, BufferStatusChannel.with_queue (sampleChannel 3) q',
            [], [9] ++ [10; 11])
    /\ snd (BufferStatusObserver.getBufferStatusChanges
              zeroMessage [(5, q')] [])
       = [] ++ map (fun id => set_connectionId 5 (release 1 id)) [10; 11]
         ++ [set_connectionId 5
               (BufferStatusChannel.statusMessage 7 42 USED 1 2)].
Proof.
  apply (posted_messages_reach_the_observer zeroMessage Fmq.items
           (sampleChannel 3) (Fmq.fmq_new 3) 5 7 42 USED 1 2 [10; 11] [9] []);
    [reflexivity | reflexivity | reflexivity | vm_compute; lia].
Defined.

(** A listener attached to a valid queue. *)
Lemma getInvalidations_on_attached_listener_witness :
  BufferInvalidationListener.isValid
    (BufferInvalidationListener.new (backlogQueue sampleInvalidations)) = true
  /\ exists l' appended,
       BufferInvalidationListener.getInvalidations
         (BufferInvalidationListener.new (backlogQueue sampleInvalidations)) []
       = Done (l', [] ++ appended)
       /\ BufferInvalidationListener.isValid l' = true
       /\ BufferInvalidationListener.mBufferInvalidationQueue l' <> None.
Proof.
  apply (getInvalidations_on_attached_listener
           (backlogQueue sampleInvalidations) []).
  reflexivity.
Defined.

(** A listener on a queue that reports two records and cannot be read:
    the call leaves the queue with exactly two reads tried on it. *)
Lemma getInvalidations_failed_reads_append_nothing_witness :
  BufferInvalidationListener.getInvalidations
    {| BufferInvalidationListener.mValid := true;
       BufferInvalidationListener.mBufferInvalidationQueue :=
         Some {| Counting.reads := 0%nat;
                 Counting.inner := backlogQueue sampleInvalidations |} |}
    []
  = Done ({| BufferInvalidationListener.mValid := true;
             BufferInvalidationListener.mBufferInvalidationQueue :=
               Some {| Counting.reads := 2%nat;
                       Counting.inner := backlogQueue sampleInvalidations |} |},
          []).
Proof.
  exact (getInvalidations_failed_reads_append_nothing
           {| BufferInvalidationListener.mValid := true;
              BufferInvalidationListener.mBufferInvalidationQueue :=
                Some {| Counting.reads := 0%nat;
                        Counting.inner := backlogQueue sampleInvalidations |} |}
           {| Counting.reads := 0%nat;
              Counting.inner := backlogQueue sampleInvalidations |}
           [] (fun _ _ => eq_refl) eq_refl).
Defined.

(** A listener whose queue holds two records. *)
Lemma getInvalidations_takes_queued_records_witness :
  exists q' : Fmq.t BufferInvalidationMessage,
    BufferInvalidationListener.getInvalidations
      {| BufferInvalidationListener.mValid := true;
         BufferInvalidationListener.mBufferInvalidationQueue :=
           Some (backlogQueue sampleInvalidations) |}
      []
    = Done ({| BufferInvalidationListener.mValid := true;
               BufferInvalidationListener.mBufferInvalidationQueue := Some q' |},
            [] ++ firstn kNumElementsInQueue
                         (Fmq.items (backlogQueue sampleInvalidations)))
    /\ Fmq.items q'
       = skipn kNumElementsInQueue
               (Fmq.items (backlogQueue sampleInvalidations)).
Proof.
  apply (getInvalidations_takes_queued_records Fmq.items
           {| BufferInvalidationListener.mValid := true;
              BufferInvalidationListener.mBufferInvalidationQueue :=
                Some (backlogQueue sampleInvalidations) |}
           (backlogQueue sampleInvalidations) []).
  reflexivity.
Defined.

(** A listener constructed behind a backlog of [kNumElementsInQueue] + 2
    records: the first [kNumElementsInQueue] are discarded, the last two
    stay in its queue. *)
Lemma new_listener_discards_up_to_capacity_witness :
  exists q' : Fmq.t BufferInvalidationMessage,
    BufferInvalidationListener.new overfullBacklog
    = {| BufferInvalidationListener.mValid := true;
         BufferInvalidationListener.mBufferInvalidationQueue := Some q' |}
    /\ length (Fmq.items overfullBacklog) = (kNumElementsInQueue + 2)%nat
    /\ Fmq.items q' = sampleInvalidations.
Proof.
  destruct (@new_listener_discards_up_to_capacity _ _ Fmq.queue Fmq.items _
              overfullBacklog eq_refl) as (q' & Hnew & Hc).
  exists q'. split; [exact Hnew |]. split.
  - vm_compute. reflexivity.
  - rewrite Hc. vm_compute. reflexivity.
Defined.

(** Two invalidations posted into an empty queue of four slots. *)
Lemma postInvalidation_in_order_witness :
  Fmq.items
    (BufferInvalidationChannel.mBufferInvalidationQueue
       (fold_left
          (fun c p =>
             BufferInvalidationChannel.postInvalidation
               c (messageId p) (fromBufferId p) (toBufferId p))
          sampleInvalidations
          {| BufferInvalidationChannel.mValid := true;
             BufferInvalidationChannel.mBufferInvalidationQueue :=
               backlogQueue [] |}))
  = sampleInvalidations.
Proof.
  exact (proj1 (postInvalidation_in_order Fmq.items sampleInvalidations
                  {| BufferInvalidationChannel.mValid := true;
                     BufferInvalidationChannel.mBufferInvalidationQueue :=
                       backlogQueue [] |}
                  (le_S _ _ (le_S _ _ (le_n 2))))).
Defined.
End FurtherInstances.
